(** * HttpConnection: the request executor and its per-thread pool entry

    A shallow embedding of [httpconnection.cpp]: the per-call state machine
    [HttpConnection::send_request], the pool entry's recycle deadline and
    remote-IP statistic, and the response-header callback.

    libcurl, the resolver, the SNMP table, the monitors and SAS are external
    to the file; they appear here as an explicit environment ([Env]), as
    explicit state ([CurlHandle], the statistics table) and as an ordered
    log of the calls made on them ([Event]). *)

From stdpp Require Import gmap strings list fin_maps pretty.
From Stdlib Require Import ZArith Ascii Lia Sorted.

Local Open Scope Z_scope.

(** ** libcurl result codes *)

(** The [CURLcode] values the file names, and [CURLE_OTHER n] for any other
    code of libcurl ([n] is its number; the file never inspects it). *)
Inductive CURLcode : Type :=
| CURLE_OK
| CURLE_URL_MALFORMAT
| CURLE_NOT_BUILT_IN
| CURLE_COULDNT_RESOLVE_PROXY
| CURLE_COULDNT_RESOLVE_HOST
| CURLE_COULDNT_CONNECT
| CURLE_REMOTE_ACCESS_DENIED
| CURLE_OPERATION_TIMEDOUT
| CURLE_SEND_ERROR
| CURLE_RECV_ERROR
| CURLE_REMOTE_FILE_NOT_FOUND
| CURLE_AGAIN
| CURLE_OTHER (n : Z).

#[global] Instance CURLcode_eq_dec : EqDecision CURLcode.
Proof. solve_decision. Defined.

(** [HTTPCode] is a [long]; the three constants used by the mapping. *)
Definition HTTPCode : Type := Z.
Definition HTTP_BAD_REQUEST : HTTPCode := 400.
Definition HTTP_NOT_FOUND : HTTPCode := 404.
Definition HTTP_SERVER_ERROR : HTTPCode := 500.

(** ** Constants of the file *)

Definition MAX_TARGETS : Z := 5.
Definition IPPROTO_TCP : Z := 6.
Definition AF_INET : Z := 2.

(** [unsigned long] is 64 bits wide on the target; arithmetic on it wraps. *)
Definition ULONG_MODULUS : Z := 2 ^ 64.
Definition ulong (z : Z) : Z := z mod ULONG_MODULUS.

(** ** Targets *)

(** Modelled from the spec: [IP46Address] and [AddrInfo] are declared in a
    header that is not part of the sources.  A target is an address family,
    the address bytes, a port and a transport; equality is by all four
    fields. *)
Record IP46Address : Type := mkIP46Address {
  af : Z;
  addr : list Z
}.

Record AddrInfo : Type := mkAddrInfo {
  address : IP46Address;
  port : Z;
  transport : Z
}.

#[global] Instance IP46Address_eq_dec : EqDecision IP46Address.
Proof. solve_decision. Defined.

#[global] Instance AddrInfo_eq_dec : EqDecision AddrInfo.
Proof. solve_decision. Defined.

(** ** Strings: the helpers [write_headers] uses *)

Definition tolower (c : ascii) : ascii :=
  let n := nat_of_ascii c in
  if (65 <=? n)%nat && (n <=? 90)%nat then ascii_of_nat (n + 32) else c.

Definition isspace (c : ascii) : bool :=
  let n := nat_of_ascii c in
  ((9 <=? n)%nat && (n <=? 13)%nat) || (n =? 32)%nat.

Fixpoint transform (f : ascii -> ascii) (s : string) : string :=
  match s with
  | EmptyString => EmptyString
  | String c s' => String (f c) (transform f s')
  end.

(** [s.erase(std::remove_if(s.begin(), s.end(), p), s.end())] *)
Fixpoint erase_if (p : ascii -> bool) (s : string) : string :=
  match s with
  | EmptyString => EmptyString
  | String c s' => if p c then erase_if p s' else String c (erase_if p s')
  end.

(** [find] of a colon: position of the first one, [None] for [npos]. *)
Fixpoint find_colon (s : string) : option nat :=
  match s with
  | EmptyString => None
  | String c s' =>
      if Ascii.eqb c ":"%char then Some 0%nat
      else match find_colon s' with
           | Some n => Some (S n)
           | None => None
           end
  end.

(** [s.substr(0, n)] and [s.substr(n, npos)]. *)
Fixpoint substr_to (n : nat) (s : string) : string :=
  match n, s with
  | S n', String c s' => String c (substr_to n' s')
  | _, _ => EmptyString
  end.

Fixpoint substr_from (n : nat) (s : string) : string :=
  match n, s with
  | S n', String _ s' => substr_from n' s'
  | _, _ => s
  end.

(** The key and the value [write_headers] stores for one header line. *)
Definition header_key (headerString : string) : string :=
  let key :=
    match find_colon headerString with
    | None => headerString
    | Some colon_loc => substr_to colon_loc headerString
    end in
  erase_if isspace (transform tolower key).

Definition header_val (headerString : string) : string :=
  let val :=
    match find_colon headerString with
    | None => ""
    | Some colon_loc => substr_from (colon_loc + 1) headerString
    end in
  erase_if isspace val.

(** [HttpConnection::write_headers]: the map entry for the key is
    overwritten with the value. *)
Definition write_headers (headerString : string)
    (headers : gmap string string) : gmap string string :=
  <[header_key headerString := header_val headerString]> headers.

(** [HttpConnection::string_store]: append the chunk to the document. *)
Definition string_store (chunk : string) (stream : string) : string :=
  stream +:+ chunk.

(** ** The pool entry *)

(** [_rand] is the exponential sampler of the entry.  Its samples are
    doubles; the model keeps the sequence of values it will return, each
    already truncated to an integer, and the number drawn so far. *)
Record PoolEntry : Type := mkPoolEntry {
  _deadline_ms : Z;
  _rand : nat -> Z;
  _rand_drawn : nat;
  _remote_ip : string;
  _host_resolve : list string
}.

(** [PoolEntry::PoolEntry] *)
Definition new_PoolEntry (sampler : nat -> Z) : PoolEntry :=
  mkPoolEntry 0 sampler 0 "" [].

Definition set_host_resolve (l : list string) (e : PoolEntry) : PoolEntry :=
  mkPoolEntry (_deadline_ms e) (_rand e) (_rand_drawn e) (_remote_ip e) l.

(** [PoolEntry::is_connection_expired] *)
Definition is_connection_expired (now_ms : Z) (e : PoolEntry) : bool :=
  _deadline_ms e <? now_ms.

(** The value of [(unsigned long)_rand()] at the next draw. *)
Definition next_interval_ms (e : PoolEntry) : Z :=
  ulong (_rand e (_rand_drawn e)).

(** [PoolEntry::update_deadline] *)
Definition update_deadline (now_ms : Z) (e : PoolEntry) : PoolEntry :=
  let interval_ms := next_interval_ms e in
  let deadline :=
    if (_deadline_ms e =? 0) || (ulong (_deadline_ms e + interval_ms) <? now_ms)
    then ulong (now_ms + interval_ms)
    else ulong (_deadline_ms e + interval_ms) in
  mkPoolEntry deadline (_rand e) (S (_rand_drawn e)) (_remote_ip e)
              (_host_resolve e).

(** The deadline after each call of a sequence of [update_deadline] calls,
    one per clock reading of [nows]. *)
Fixpoint deadlines_after (nows : list Z) (e : PoolEntry) : list Z :=
  match nows with
  | [] => []
  | now_ms :: rest =>
      _deadline_ms (update_deadline now_ms e)
        :: deadlines_after rest (update_deadline now_ms e)
  end.

(** ** The connection object *)

Inductive HttpLogLevel : Type := NONE | PROTOCOL | DETAIL.

(** The members of [HttpConnection] the executor reads.  [_load_monitor]
    and [_comm_monitor] record whether the pointer is non-NULL;
    [_stat_table] is [None] for a NULL table and otherwise holds the rows of
    the SNMP table; [_lock_count] counts the [pthread_mutex_lock] calls made
    on [_lock]. *)
Record HttpConnection : Type := mkHttpConnection {
  _server : string;
  _host : string;
  _scheme : string;
  _port : Z;
  _assert_user : bool;
  _sas_log_level : HttpLogLevel;
  _load_monitor : bool;
  _comm_monitor : bool;
  _stat_table : option (gmap string Z);
  _lock_count : nat
}.

(** Modelled from the spec: [SNMP::IPCountTable] is declared outside the
    sources.  A row holds a counter; [get] creates the row (at zero) when it
    is absent, [increment] and [decrement] move the counter by one and
    [decrement] returns the new value, [remove] deletes the row. *)
Definition stat_count (ip : string) (t : gmap string Z) : Z :=
  default 0 (t !! ip).

Definition stat_increment (ip : string) (t : gmap string Z) : gmap string Z :=
  <[ip := stat_count ip t + 1]> t.

Definition stat_decrement (ip : string) (t : gmap string Z)
    : gmap string Z * Z :=
  (<[ip := stat_count ip t - 1]> t, stat_count ip t - 1).

Definition stat_remove (ip : string) (t : gmap string Z) : gmap string Z :=
  delete ip t.

(** [PoolEntry::update_snmp_ip_counts], on the rows of a non-NULL table.
    The caller accounts for the lock. *)
Definition update_snmp_ip_counts (old value : string) (t : gmap string Z)
    : gmap string Z :=
  let t1 :=
    if decide (old = "") then t
    else
      let '(t', n) := stat_decrement old t in
      if n =? 0 then stat_remove old t' else t' in
  if decide (value = "") then t1 else stat_increment value t1.

Definition with_stat_table (t : option (gmap string Z)) (locks : nat)
    (c : HttpConnection) : HttpConnection :=
  mkHttpConnection (_server c) (_host c) (_scheme c) (_port c)
    (_assert_user c) (_sas_log_level c) (_load_monitor c) (_comm_monitor c)
    t locks.

Definition with_remote_ip (value : string) (e : PoolEntry) : PoolEntry :=
  mkPoolEntry (_deadline_ms e) (_rand e) (_rand_drawn e) value
              (_host_resolve e).

(** [PoolEntry::set_remote_ip]; [c] is the parent connection. *)
Definition set_remote_ip (value : string) (ce : HttpConnection * PoolEntry)
    : HttpConnection * PoolEntry :=
  let '(c, e) := ce in
  if decide (value = _remote_ip e) then (c, e)
  else
    let c' :=
      match _stat_table c with
      | None => c
      | Some t =>
          with_stat_table
            (Some (update_snmp_ip_counts (_remote_ip e) value t))
            (S (_lock_count c)) c
      end in
    (c', with_remote_ip value e).

(** The counter of [ip] as the connection's table shows it (zero when the
    row, or the table, is absent). *)
Definition stat_of (ip : string) (c : HttpConnection) : Z :=
  match _stat_table c with
  | None => 0
  | Some t => stat_count ip t
  end.

(** ** libcurl and the resolver, as the executor sees them *)

(** What one [curl_easy_perform] hands back: its return value, what
    [curl_easy_getinfo] answers afterwards for the response code and the
    primary IP ([None] when the query fails), the header lines given to the
    header callback, the body chunks given to the write callback, and the
    request and response bytes given to the debug callback. *)
Record Reply : Type := mkReply {
  reply_rc : CURLcode;
  reply_response_code : Z;
  reply_primary_ip : option string;
  reply_headers : list string;
  reply_body : list string;
  reply_request : string;
  reply_response : string
}.

(** The state of the thread's handle that outlives a call. *)
Record CurlHandle : Type := mkCurlHandle {
  CURLINFO_PRIMARY_IP : option string;
  CURLINFO_RESPONSE_CODE : Z
}.

(** The collaborators of one call.  [resolve host port max] is the target
    list the resolver returns; [parse_ip_target s] is the address
    [parse_ip_target] leaves in its out-parameter; [inet_ntop] prints an
    address; [curl_easy_perform k i fresh] is the outcome of the [k]-th
    transfer of the call, aimed at target [i], with [CURLOPT_FRESH_CONNECT]
    set to [fresh].

    [inet_ntop] prints into [char buf[100]], a local of the loop body, and
    the local [remote_ip] of [send_request] points into it.  The buffer's
    lifetime ends with each iteration, yet [remote_ip] is read once more
    after the loop.  The language does not say what that read yields:
    [read_expired_buf s] is the string it yields when [s] is the text the
    last iteration printed. *)
Record Env : Type := mkEnv {
  resolve : string -> Z -> Z -> list AddrInfo;
  parse_ip_target : string -> IP46Address;
  inet_ntop : IP46Address -> string;
  read_expired_buf : string -> string;
  curl_easy_perform : nat -> AddrInfo -> bool -> Reply;
  HTTP_BRANCH_HEADER_NAME : string
}.

Inductive HttpErrorResponseTypes : Type := Temporary | Permanent.

(** The calls the executor makes on its collaborators, in order. *)
Inductive Event : Type :=
| Ev_report_marker (uuid_str : string)
| Ev_perform (i : AddrInfo) (fresh : bool) (host_resolve : list string)
             (ip_url : string) (extra_headers : list string) (r : Reply)
| Ev_sas_log_http_req (request_bytes : string)
| Ev_sas_log_http_rsp (http_rc : Z) (response_bytes : string)
| Ev_sas_log_curl_error (remote_ip_addr : string) (remote_port : Z)
                        (code : CURLcode)
| Ev_blacklist (i : AddrInfo)
| Ev_sas_log_http_abort (reason : HttpErrorResponseTypes)
| Ev_incr_penalties
| Ev_inform_success (now_ms : Z)
| Ev_inform_failure (now_ms : Z).

(** The local variables of [send_request] that the attempt loop updates,
    together with the objects it writes through: the pool entry, the
    handle, the document, the response-header map (present when the caller
    installed the header callback) and the log. *)
Record LoopState : Type := mkLoopState {
  num_http_503_responses : Z;
  num_http_504_responses : Z;
  num_timeouts_or_io_errors : Z;
  rc : CURLcode;
  remote_ip : option string;
  entry : PoolEntry;
  handle : CurlHandle;
  doc : string;
  headers : option (gmap string string);
  log : list Event
}.

(** [HttpConnection::curl_code_to_http_code] *)
Definition curl_code_to_http_code (curl : CurlHandle) (code : CURLcode)
    : HTTPCode :=
  match code with
  | CURLE_OK => CURLINFO_RESPONSE_CODE curl
  | CURLE_URL_MALFORMAT
  | CURLE_NOT_BUILT_IN => HTTP_BAD_REQUEST
  | CURLE_REMOTE_FILE_NOT_FOUND => HTTP_NOT_FOUND
  | CURLE_COULDNT_RESOLVE_PROXY
  | CURLE_COULDNT_RESOLVE_HOST
  | CURLE_COULDNT_CONNECT
  | CURLE_AGAIN => HTTP_NOT_FOUND
  | _ => HTTP_SERVER_ERROR
  end.

Section Executor.

Context (env : Env).

(** The SAS helpers report nothing at log level [NONE], except
    [sas_log_http_abort], which always reports. *)
Definition sas_log_http_req (c : HttpConnection) (request_bytes : string)
    : list Event :=
  match _sas_log_level c with
  | NONE => []
  | _ => [Ev_sas_log_http_req request_bytes]
  end.

Definition sas_log_http_rsp (c : HttpConnection) (http_rc : Z)
    (response_bytes : string) : list Event :=
  match _sas_log_level c with
  | NONE => []
  | _ => [Ev_sas_log_http_rsp http_rc response_bytes]
  end.

Definition sas_log_curl_error (c : HttpConnection) (remote_ip_addr : string)
    (remote_port : Z) (code : CURLcode) : list Event :=
  match _sas_log_level c with
  | NONE => []
  | _ => [Ev_sas_log_curl_error remote_ip_addr remote_port code]
  end.

Definition sas_log_http_abort (reason : HttpErrorResponseTypes)
    : list Event :=
  [Ev_sas_log_http_abort reason].

(** The header list [send_request] builds before the loop. *)
Definition extra_headers (c : HttpConnection) (body username uuid_str : string)
    (headers_to_add : list string) : list string :=
  (if decide (body = "") then [] else ["Content-Type: application/json"])
  ++ [HTTP_BRANCH_HEADER_NAME env +:+ ": " +:+ uuid_str]
  ++ ["Expect:"]
  ++ headers_to_add
  ++ (if _assert_user c then ["X-XCAP-Asserted-Identity: " +:+ username]
      else []).

(** The sticky-first step: with the connection not due for recycling and the
    primary IP available, erase every target equal to [ai] and, when that
    shortened the list, put [ai] at the front. *)
Definition sticky_first (c : HttpConnection) (curl : CurlHandle)
    (recycle_conn : bool) (targets : list AddrInfo) : list AddrInfo :=
  if recycle_conn then targets
  else
    match CURLINFO_PRIMARY_IP curl with
    | None => targets
    | Some primary_ip =>
        let ai :=
          mkAddrInfo (parse_ip_target env primary_ip)
                     (if _port c =? 0 then 80 else _port c)
                     IPPROTO_TCP in
        let initialSize := length targets in
        let erased := filter (fun t => t <> ai) targets in
        if (length erased <? initialSize)%nat then ai :: erased else targets
    end.

(** The minimum-retry step: a single target is cloned. *)
Definition clone_single (targets : list AddrInfo) : list AddrInfo :=
  match targets with
  | [t] => [t; t]
  | _ => targets
  end.

(** The target list the loop iterates over. *)
Definition assemble_targets (c : HttpConnection) (curl : CurlHandle)
    (recycle_conn : bool) : list AddrInfo :=
  clone_single
    (sticky_first c curl recycle_conn
       (resolve env (_host c) (_port c) MAX_TARGETS)).

(** The failure-mode bookkeeping of one failed attempt: the three counters
    after it, and [fatal_http_error]. *)
Definition count_failure (rc1 : CURLcode) (http_rc : Z) (s : LoopState)
    : Z * Z * Z * bool :=
  let n503 := num_http_503_responses s in
  let n504 := num_http_504_responses s in
  let nto := num_timeouts_or_io_errors s in
  if 400 <=? http_rc then
    if http_rc =? 503 then (n503 + 1, n504, nto, false)
    else if http_rc =? 504 then (n503, n504 + 1, nto, false)
    else (n503, n504, nto, true)
  else if bool_decide (rc1 = CURLE_REMOTE_FILE_NOT_FOUND)
          || bool_decide (rc1 = CURLE_REMOTE_ACCESS_DENIED)
  then (n503, n504, nto, true)
  else if bool_decide (rc1 = CURLE_OPERATION_TIMEDOUT)
          || bool_decide (rc1 = CURLE_SEND_ERROR)
          || bool_decide (rc1 = CURLE_RECV_ERROR)
  then (n503, n504, nto + 1, false)
  else (n503, n504, nto, false).

(** One iteration of the loop over the targets, the [k]-th of the call, for
    target [i].  The boolean is [true] when the iteration leaves the loop
    with [break]. *)
Definition attempt (c : HttpConnection) (path : string)
    (hdrs : list string) (recycle_conn : bool) (now_ms : Z)
    (k : nat) (i : AddrInfo) (s : LoopState) : LoopState * bool :=
  let ip := inet_ntop env (address i) in
  let resolve_addr := _host c +:+ ":" +:+ pretty (port i) +:+ ":" +:+ ip in
  let host_resolve := _host_resolve (entry s) ++ [resolve_addr] in
  let ip_url :=
    _scheme c +:+ "://" +:+ _host c +:+ ":" +:+ pretty (port i) +:+ path in
  let r := curl_easy_perform env k i recycle_conn in
  let doc1 := foldl (fun d chunk => string_store chunk d) "" (reply_body r) in
  let headers1 :=
    (fun m => foldl (fun m line => write_headers line m) m (reply_headers r))
      <$> headers s in
  let curl1 := mkCurlHandle (reply_primary_ip r) (reply_response_code r) in
  let rc1 := reply_rc r in
  let resolve_remove_addr := "-" +:+ _host c +:+ ":" +:+ pretty (port i) in
  let entry1 := set_host_resolve [resolve_remove_addr] (entry s) in
  let log_req :=
    if decide (reply_request r = "") then []
    else sas_log_http_req c (reply_request r) in
  let http_rc :=
    if bool_decide (rc1 = CURLE_OK) then CURLINFO_RESPONSE_CODE curl1 else 0 in
  let log_rsp :=
    if bool_decide (rc1 = CURLE_OK)
    then sas_log_http_rsp c http_rc (reply_response r)
    else sas_log_curl_error c ip (port i mod 65536) rc1 in
  let log1 :=
    log s ++ [Ev_perform i recycle_conn host_resolve ip_url hdrs r]
          ++ log_req ++ log_rsp in
  if bool_decide (rc1 = CURLE_OK) && negb (400 <=? http_rc) then
    let entry2 :=
      if recycle_conn then update_deadline now_ms entry1 else entry1 in
    (mkLoopState (num_http_503_responses s) (num_http_504_responses s)
       (num_timeouts_or_io_errors s) rc1 (Some ip) entry2 curl1 doc1
       headers1 log1, true)
  else
    let log_bl :=
      if recycle_conn && negb (400 <=? http_rc)
         && negb (bool_decide (rc1 = CURLE_REMOTE_FILE_NOT_FOUND))
         && negb (bool_decide (rc1 = CURLE_REMOTE_ACCESS_DENIED))
      then [Ev_blacklist i] else [] in
    let '(n503, n504, nto, fatal_http_error) := count_failure rc1 http_rc s in
    if (2 <=? n503 + nto) || (1 <=? n504) || fatal_http_error then
      let reason := if fatal_http_error then Permanent else Temporary in
      (mkLoopState n503 n504 nto rc1 (Some ip) entry1 curl1 doc1 headers1
         (log1 ++ log_bl ++ sas_log_http_abort reason), true)
    else
      (mkLoopState n503 n504 nto rc1 (Some ip) entry1 curl1 doc1 headers1
         (log1 ++ log_bl), false).

(** The loop over the targets. *)
Fixpoint attempt_loop (c : HttpConnection) (path : string)
    (hdrs : list string) (recycle_conn : bool) (now_ms : Z)
    (k : nat) (targets : list AddrInfo) (s : LoopState) : LoopState :=
  match targets with
  | [] => s
  | i :: rest =>
      let '(s', stop) := attempt c path hdrs recycle_conn now_ms k i s in
      if stop then s'
      else attempt_loop c path hdrs recycle_conn now_ms (S k) rest s'
  end.

(** What a call leaves behind: the returned code, the connection (its
    statistics table and lock count), the final loop state (pool entry,
    handle, document, header map, log) and the target list it iterated
    over. *)
Record Result : Type := mkResult {
  res_code : HTTPCode;
  res_conn : HttpConnection;
  res_state : LoopState;
  res_targets : list AddrInfo
}.

Definition with_entry_log (e : PoolEntry) (l : list Event) (s : LoopState)
    : LoopState :=
  mkLoopState (num_http_503_responses s) (num_http_504_responses s)
    (num_timeouts_or_io_errors s) (rc s) (remote_ip s) e (handle s) (doc s)
    (headers s) l.

(** [HttpConnection::send_request].  [e] and [curl] are the thread's pool
    entry and handle, [doc] and [headers] the caller's out-parameters as
    they stand at the call, [now_ms] the monotonic clock reading and
    [uuid_str] the UUID drawn for the call.  The local [remote_ip] is NULL
    ([None]) until the first iteration; after the loop it is read only when
    [rc] is [CURLE_OK], which takes an iteration, and by then the buffer it
    points into has expired: [set_remote_ip] is handed what
    [read_expired_buf] yields, not the text that was printed. *)
Definition send_request (c : HttpConnection) (e : PoolEntry)
    (curl : CurlHandle) (path body doc : string)
    (headers : option (gmap string string)) (username : string)
    (headers_to_add : list string) (now_ms : Z) (uuid_str : string)
    : Result :=
  let hdrs := extra_headers c body username uuid_str headers_to_add in
  let recycle_conn := is_connection_expired now_ms e in
  let targets := assemble_targets c curl recycle_conn in
  let s0 :=
    mkLoopState 0 0 0 CURLE_COULDNT_RESOLVE_HOST None e curl doc headers
                [Ev_report_marker uuid_str] in
  let s1 := attempt_loop c path hdrs recycle_conn now_ms 0 targets s0 in
  let log_penalty :=
    if ((2 <=? num_http_503_responses s1) || (1 <=? num_http_504_responses s1))
       && _load_monitor c
    then [Ev_incr_penalties] else [] in
  let '(c', e', log_comm) :=
    if bool_decide (rc s1 = CURLE_OK) then
      let '(c', e') :=
        set_remote_ip (default "" (read_expired_buf env <$> remote_ip s1))
                      (c, entry s1) in
      (c', e',
       if _comm_monitor c then
         if 2 <=? num_http_503_responses s1 then [Ev_inform_failure now_ms]
         else [Ev_inform_success now_ms]
       else [])
    else
      let '(c', e') := set_remote_ip "" (c, entry s1) in
      (c', e', if _comm_monitor c then [Ev_inform_failure now_ms] else []) in
  let http_code := curl_code_to_http_code (handle s1) (rc s1) in
  mkResult http_code c'
           (with_entry_log e' (log s1 ++ log_penalty ++ log_comm) s1)
           targets.

(** The public entry points that supply the out-parameters.  [send_put] and
    [send_post] install the header callback on the caller's map; [send_get]
    and [send_delete] do not.  [send_put] passes an empty user name. *)
Definition send_put (c : HttpConnection) (e : PoolEntry) (curl : CurlHandle)
    (path : string) (headers : gmap string string) (response body : string)
    (extra_req_headers : list string) (username : string)
    (now_ms : Z) (uuid_str : string) : Result :=
  send_request c e curl path body response (Some headers) ""
               extra_req_headers now_ms uuid_str.

Definition send_post (c : HttpConnection) (e : PoolEntry) (curl : CurlHandle)
    (path : string) (headers : gmap string string) (response body : string)
    (username : string) (now_ms : Z) (uuid_str : string) : Result :=
  send_request c e curl path body response (Some headers) username
               [] now_ms uuid_str.

Definition send_get (c : HttpConnection) (e : PoolEntry) (curl : CurlHandle)
    (path response username : string) (headers_to_add : list string)
    (now_ms : Z) (uuid_str : string) : Result :=
  send_request c e curl path "" response None username
               headers_to_add now_ms uuid_str.

Definition send_delete (c : HttpConnection) (e : PoolEntry)
    (curl : CurlHandle) (path response body username : string)
    (now_ms : Z) (uuid_str : string) : Result :=
  send_request c e curl path body response None username
               [] now_ms uuid_str.

End Executor.

(** ** Reading the log *)

(** The transfers made, in order: target, fresh-connection flag, reply. *)
Definition performed (l : list Event) : list (AddrInfo * bool * Reply) :=
  omap (fun ev => match ev with
                  | Ev_perform i fresh _ _ _ r => Some (i, fresh, r)
                  | _ => None
                  end) l.

(** The targets handed to [blacklist], in order. *)
Definition blacklist_calls (l : list Event) : list AddrInfo :=
  omap (fun ev => match ev with
                  | Ev_blacklist i => Some i
                  | _ => None
                  end) l.

(** The reasons of the abort events, in order. *)
Definition abort_events (l : list Event) : list HttpErrorResponseTypes :=
  omap (fun ev => match ev with
                  | Ev_sas_log_http_abort reason => Some reason
                  | _ => None
                  end) l.

(** The number of [incr_penalties] calls. *)
Definition penalty_calls (l : list Event) : nat :=
  length (omap (fun ev => match ev with
                          | Ev_incr_penalties => Some tt
                          | _ => None
                          end) l).

(** ** The outcome buckets of the specification *)

Inductive Outcome : Type :=
| ok
| http_503
| http_504
| fatal_http
| not_found_or_denied
| timeout_or_io
| connect_failure.

#[global] Instance Outcome_eq_dec : EqDecision Outcome.
Proof. solve_decision. Defined.

(** The bucket of a reply, in the words of the specification: [ok] is a
    successful transfer with a status below 400; 503 and 504 have their own
    buckets; any other status from 400 up is [fatal_http]; remote file not
    found and remote access denied are [not_found_or_denied]; operation
    timeout, send error and receive error are [timeout_or_io]; every other
    transport failure is [connect_failure]. *)
Definition classify (r : Reply) : Outcome :=
  match reply_rc r with
  | CURLE_OK =>
      if reply_response_code r <? 400 then ok
      else if reply_response_code r =? 503 then http_503
      else if reply_response_code r =? 504 then http_504
      else fatal_http
  | CURLE_REMOTE_FILE_NOT_FOUND
  | CURLE_REMOTE_ACCESS_DENIED => not_found_or_denied
  | CURLE_OPERATION_TIMEDOUT
  | CURLE_SEND_ERROR
  | CURLE_RECV_ERROR => timeout_or_io
  | _ => connect_failure
  end.

(** [not_found_or_denied] is treated as [fatal_http]. *)
Definition is_fatal (o : Outcome) : bool :=
  match o with
  | fatal_http | not_found_or_denied => true
  | _ => false
  end.

Definition count_of (o : Outcome) (l : list Outcome) : Z :=
  Z.of_nat (length (filter (fun x => x = o) l)).

(** The retry budget is spent: 503s plus timeouts or I/O errors reach two,
    or there is a 504. *)
Definition budget_spent (l : list Outcome) : bool :=
  (2 <=? count_of http_503 l + count_of timeout_or_io l)
  || (1 <=? count_of http_504 l).

Definition outcomes (att : list (AddrInfo * bool * Reply)) : list Outcome :=
  (fun a => classify a.2) <$> att.

Definition bump (x o : Outcome) : Z := if decide (o = x) then 1 else 0.

Definition over_budget (s : LoopState) : bool :=
  (2 <=? num_http_503_responses s + num_timeouts_or_io_errors s)
  || (1 <=? num_http_504_responses s).

(** The replies on which a forced-new connection gets its target
    blacklisted: the transfer failed, with a code other than remote file not
    found and remote access denied. *)
Definition transfer_failed (r : Reply) : bool :=
  negb (bool_decide (reply_rc r = CURLE_OK))
  && negb (bool_decide (reply_rc r = CURLE_REMOTE_FILE_NOT_FOUND))
  && negb (bool_decide (reply_rc r = CURLE_REMOTE_ACCESS_DENIED)).

(** The value of the local [http_rc] after a transfer: the response code
    is read only when the transfer succeeded. *)
Definition http_rc_of (r : Reply) : Z :=
  if bool_decide (reply_rc r = CURLE_OK) then reply_response_code r else 0.

(** ** The transfers a call is expected to make *)

(** The transfers the stopping rule of the specification allows, for the
    targets [targets] from position [k] on, when the counters stand at
    [n503], [n504] and [nto]: each target is tried in turn, and the sequence
    ends after a transfer that is [ok] or fatal or that spends the budget. *)
Fixpoint expected_transfers (env : Env) (recycle_conn : bool) (k : nat)
    (targets : list AddrInfo) (n503 n504 nto : Z)
    : list (AddrInfo * bool * Reply) :=
  match targets with
  | [] => []
  | i :: rest =>
      let r := curl_easy_perform env k i recycle_conn in
      let o := classify r in
      let n503' := n503 + bump http_503 o in
      let n504' := n504 + bump http_504 o in
      let nto' := nto + bump timeout_or_io o in
      (i, recycle_conn, r)
        :: (if bool_decide (o = ok) || is_fatal o
               || ((2 <=? n503' + nto') || (1 <=? n504'))
            then []
            else expected_transfers env recycle_conn (S k) rest
                   n503' n504' nto')
  end.

(** The targets blacklisted for a sequence of transfers. *)
Definition blacklisted_of (att : list (AddrInfo * bool * Reply))
    : list AddrInfo :=
  (fun a => a.1.1) <$> filter (fun a => a.1.2 && transfer_failed a.2 = true) att.

(** The abort events for a sequence of outcomes; [spent] tells whether the
    budget is spent at the end. *)
Definition abort_of (outs : list Outcome) (spent : bool)
    : list HttpErrorResponseTypes :=
  match last outs with
  | None => []
  | Some o =>
      if bool_decide (o = ok) then []
      else if is_fatal o then [Permanent]
      else if spent then [Temporary] else []
  end.

(** All the header lines a sequence of transfers delivered, in order. *)
Definition header_lines (att : list (AddrInfo * bool * Reply)) : list string :=
  concat ((fun a => reply_headers a.2) <$> att).

(** The budget test on a sequence of outcomes, with the counters starting
    at [n503], [n504] and [nto]. *)
Definition spent_from (n503 n504 nto : Z) (l : list Outcome) : bool :=
  (2 <=? n503 + count_of http_503 l + (nto + count_of timeout_or_io l))
  || (1 <=? n504 + count_of http_504 l).

(** The header map after the header callback has seen [lines], in order,
    starting from [m]. *)
Definition fold_headers (lines : list string) (m : gmap string string)
    : gmap string string :=
  foldl (fun m line => write_headers line m) m lines.

(** ** Statements of the specification, for comparison *)

(** The outcome mapping as the specification words it: the wire status on
    success, 400 for a malformed URL, 404 for remote file not found and for
    could not resolve or connect, 500 for any other transport failure. *)
Definition claimed_http_code (rep : Reply) : HTTPCode :=
  match reply_rc rep with
  | CURLE_OK => reply_response_code rep
  | CURLE_URL_MALFORMAT => 400
  | CURLE_REMOTE_FILE_NOT_FOUND => 404
  | CURLE_COULDNT_RESOLVE_PROXY
  | CURLE_COULDNT_RESOLVE_HOST
  | CURLE_COULDNT_CONNECT => 404
  | _ => 500
  end.

(** No addition of a sequence of [update_deadline] calls leaves the range
    of [unsigned long]: at each call the clock reading and the deadline are
    in range, and so are the deadline plus the interval and the clock
    reading plus the interval. *)
Fixpoint no_wrap (nows : list Z) (e : PoolEntry) : Prop :=
  match nows with
  | [] => 0 <= _deadline_ms e < ULONG_MODULUS
  | now_ms :: rest =>
      0 <= _deadline_ms e
      ∧ 0 <= now_ms
      ∧ _deadline_ms e + next_interval_ms e < ULONG_MODULUS
      ∧ now_ms + next_interval_ms e < ULONG_MODULUS
      ∧ no_wrap rest (update_deadline now_ms e)
  end.

(** ** Concrete collaborators, for the scenarios *)

(** IPv4 addresses in dotted-quad form: a printer and a parser standing for
    [inet_ntop] and [parse_ip_target] on [AF_INET] addresses. *)
Definition ipv4 (a b c d : Z) : IP46Address :=
  mkIP46Address AF_INET [a; b; c; d].

Definition ipv4_ntop (a : IP46Address) : string :=
  match addr a with
  | [b0; b1; b2; b3] =>
      pretty b0 +:+ "." +:+ pretty b1 +:+ "." +:+ pretty b2 +:+ "."
        +:+ pretty b3
  | _ => ""
  end.

Fixpoint parse_quad (s : string) (cur : Z) (acc : list Z) : list Z :=
  match s with
  | EmptyString => acc ++ [cur]
  | String ch s' =>
      if Ascii.eqb ch "."%char then parse_quad s' 0 (acc ++ [cur])
      else parse_quad s' (cur * 10 + (Z.of_nat (nat_of_ascii ch) - 48)) acc
  end.

Definition ipv4_parse (s : string) : IP46Address :=
  mkIP46Address AF_INET (parse_quad s 0 []).

Definition tcp_target (a : IP46Address) (p : Z) : AddrInfo :=
  mkAddrInfo a p IPPROTO_TCP.

Definition target_A : AddrInfo := tcp_target (ipv4 10 0 0 1) 8080.
Definition target_B : AddrInfo := tcp_target (ipv4 10 0 0 2) 8080.
Definition target_C : AddrInfo := tcp_target (ipv4 10 0 0 3) 8080.

(** A reply carrying an HTTP status, and a reply of a failed transfer. *)
Definition http_reply (status : Z) (hdrs : list string) (body : list string)
    : Reply :=
  mkReply CURLE_OK status None hdrs body "request" "response".

Definition curl_failure (code : CURLcode) : Reply :=
  mkReply code 0 None [] [] "" "".

(** An environment whose resolver returns [targets], whose transport
    answers by target, and where the expired buffer reads as [expired]
    says. *)
Definition scenario_env_reading (expired : string -> string)
    (targets : list AddrInfo) (answer : AddrInfo -> Reply) : Env :=
  mkEnv (fun _ _ _ => targets) ipv4_parse ipv4_ntop expired
        (fun _ i _ => answer i) "X-SAS-HTTP-Branch-ID".

(** The scenarios run where the bytes of the expired buffer have not been
    reused by the time they are read. *)
Definition scenario_env (targets : list AddrInfo)
    (answer : AddrInfo -> Reply) : Env :=
  scenario_env_reading (fun s => s) targets answer.

(** A connection to the server "backend", with port [p] (no port in the
    server string when [p] is 0), an SNMP table and a communication
    monitor. *)
Definition scenario_conn (p : Z) (load_monitor : bool) : HttpConnection :=
  mkHttpConnection
    (if p =? 0 then "backend" else "backend:" +:+ pretty p)
    "backend" "http" p false PROTOCOL load_monitor true (Some ∅) 0.

(** A pool entry whose sampler always returns one minute. *)
Definition fresh_entry : PoolEntry := new_PoolEntry (fun _ => 60000).

(** A pool entry left by an earlier call: deadline in the future. *)
Definition warm_entry (ip : string) : PoolEntry :=
  mkPoolEntry 100000 (fun _ => 60000) 1 ip [].

Definition idle_handle : CurlHandle := mkCurlHandle None 0.
Definition warm_handle (ip : string) : CurlHandle := mkCurlHandle (Some ip) 200.

(** What the scenarios observe of a call: the returned code, the targets
    tried with their fresh-connection flag, the blacklisted targets, the
    abort events, the number of [incr_penalties] calls, and the remote IP
    and the deadline the pool entry is left with. *)
Definition observe (r : Result) :=
  (res_code r,
   (fun a => a.1) <$> performed (log (res_state r)),
   blacklist_calls (log (res_state r)),
   abort_events (log (res_state r)),
   penalty_calls (log (res_state r)),
   _remote_ip (entry (res_state r)),
   _deadline_ms (entry (res_state r))).

Definition get_on (env : Env) (e : PoolEntry) (curl : CurlHandle) : Result :=
  send_get env (scenario_conn 8080 true) e curl "/p" "" "" [] 5000 "uuid".

(** ** The other members of [HttpConnection] *)

Definition TIMEOUT_LATENCY_MULTIPLIER : Z := 5.
Definition DEFAULT_LATENCY_US : Z := 500000.

(** [HttpConnection::calc_req_timeout_from_latency].  The arithmetic is on
    [int], where overflow is undefined; the model is the value computed
    while [latency_us * 5] is an [int].  [/] truncates towards zero. *)
Definition calc_req_timeout_from_latency (latency_us : Z) : Z :=
  Z.max 1 (Z.quot (latency_us * TIMEOUT_LATENCY_MULTIPLIER) 1000).

(** [find_last_of] of a colon: position of the last one, [None] for
    [npos]. *)
Fixpoint find_last_colon (s : string) : option nat :=
  match s with
  | EmptyString => None
  | String c s' =>
      match find_last_colon s' with
      | Some n => Some (S n)
      | None => if Ascii.eqb c ":"%char then Some 0%nat else None
      end
  end.

(** [s[0]] (the terminating NUL for the empty string) and
    [s[s.length() - 1]]. *)
Definition string_front (s : string) : ascii :=
  match s with
  | EmptyString => "000"%char
  | String c _ => c
  end.

Fixpoint string_back (s : string) : ascii :=
  match s with
  | EmptyString => "000"%char
  | String c EmptyString => c
  | String _ s' => string_back s'
  end.

(** [HttpConnection::host_port_from_server].  [trim] is [Utils::trim],
    which is declared outside the sources; [stoi] is [std::stoi], with
    [None] when it throws, and then the function throws too. *)
Definition host_port_from_server (trim : string -> string)
    (stoi : string -> option Z) (server : string) : option (string * Z) :=
  let server_copy := trim server in
  if negb (Ascii.eqb (string_front server_copy) "["%char)
     || negb (Ascii.eqb (string_back server_copy) "]"%char)
  then
    match find_last_colon server_copy with
    | Some colon_idx =>
        match stoi (substr_from (colon_idx + 1) server_copy) with
        | Some p => Some (substr_to colon_idx server_copy, p)
        | None => None
        end
    | None => Some (server_copy, 0)
    end
  else Some (server_copy, 0).

(** [HttpConnection::change_server] *)
Definition change_server (trim : string -> string)
    (stoi : string -> option Z) (override_server : string)
    (c : HttpConnection) : option HttpConnection :=
  match host_port_from_server trim stoi override_server with
  | Some (host, p) =>
      Some (mkHttpConnection override_server host (_scheme c) p
              (_assert_user c) (_sas_log_level c) (_load_monitor c)
              (_comm_monitor c) (_stat_table c) (_lock_count c))
  | None => None
  end.

(** A [trim] and a [stoi] for the scenarios: blanks are stripped at both
    ends; a run of decimal digits is read, and anything else throws. *)
Fixpoint ltrim (s : string) : string :=
  match s with
  | String c s' => if isspace c then ltrim s' else s
  | EmptyString => EmptyString
  end.

Fixpoint rtrim (s : string) : string :=
  match s with
  | EmptyString => EmptyString
  | String c s' =>
      match rtrim s' with
      | EmptyString => if isspace c then EmptyString else String c EmptyString
      | t => String c t
      end
  end.

Definition trim_blanks (s : string) : string := ltrim (rtrim s).

Fixpoint read_digits (s : string) (acc : Z) : option Z :=
  match s with
  | EmptyString => Some acc
  | String c s' =>
      let d := Z.of_nat (nat_of_ascii c) - 48 in
      if (0 <=? d) && (d <=? 9) then read_digits s' (acc * 10 + d) else None
  end.

Definition stoi_digits (s : string) : option Z :=
  match s with
  | EmptyString => None
  | _ => read_digits s 0
  end.

(** ** The recorder of a transfer *)

Inductive curl_infotype : Type :=
| CURLINFO_TEXT
| CURLINFO_HEADER_IN
| CURLINFO_HEADER_OUT
| CURLINFO_DATA_IN
| CURLINFO_DATA_OUT
| CURLINFO_SSL_DATA_IN
| CURLINFO_SSL_DATA_OUT
| CURLINFO_END.

Record Recorder : Type := mkRecorder {
  request : string;
  response : string
}.

(** [Recorder::record_data]; the returned [int] is always 0. *)
Definition record_data (type : curl_infotype) (data : string) (r : Recorder)
    : Recorder * Z :=
  match type with
  | CURLINFO_HEADER_IN
  | CURLINFO_DATA_IN => (mkRecorder (request r) (response r +:+ data), 0)
  | CURLINFO_HEADER_OUT
  | CURLINFO_DATA_OUT => (mkRecorder (request r +:+ data) (response r), 0)
  | _ => (r, 0)
  end.

(** The recorder after the debug callback has been given [calls] in
    order. *)
Definition record_all (calls : list (curl_infotype * string)) (r : Recorder)
    : Recorder :=
  foldl (fun r call => (record_data call.1 call.2 r).1) r calls.

Definition is_outbound (type : curl_infotype) : bool :=
  match type with
  | CURLINFO_HEADER_OUT | CURLINFO_DATA_OUT => true
  | _ => false
  end.

Definition is_inbound (type : curl_infotype) : bool :=
  match type with
  | CURLINFO_HEADER_IN | CURLINFO_DATA_IN => true
  | _ => false
  end.

Fixpoint payload (keep : curl_infotype -> bool)
    (calls : list (curl_infotype * string)) : string :=
  match calls with
  | [] => ""
  | (type, data) :: rest =>
      if keep type then data +:+ payload keep rest else payload keep rest
  end.

(** ** The Diameter stack: request timeouts *)

Record timespec : Type := mkTimespec {
  tv_sec : Z;
  tv_nsec : Z
}.

(** [unsigned int] is 32 bits wide. *)
Definition uint32 (z : Z) : Z := z mod 2 ^ 32.

(** The absolute timeout [Stack::send] computes from the clock reading
    [now] and [timeout_ms].  The products on [timeout_ms] are on
    [unsigned int]; the sums on [tv_nsec] and [tv_sec] are on [long]. *)
Definition send_timeout_ts (now : timespec) (timeout_ms : Z) : timespec :=
  let nsec1 :=
    tv_nsec now + uint32 (uint32 (uint32 (timeout_ms mod 1000) * 1000) * 1000) in
  let sec1 :=
    tv_sec now
    + (uint32 (timeout_ms / 1000) + Z.quot nsec1 (1000 * 1000 * 1000)) in
  mkTimespec sec1 (Z.rem nsec1 (1000 * 1000 * 1000)).

(** ** The Diameter stack: the peer list *)

(** A [Peer*] held by the stack: the pointer and the host name the peer
    object answers to [host()]. *)
Record Peer : Type := mkPeer {
  peer_ptr : nat;
  peer_host : string
}.

#[global] Instance Peer_eq_dec : EqDecision Peer.
Proof. solve_decision. Defined.

Inductive fd_hook_type : Type :=
| HOOK_PEER_CONNECT_SUCCESS
| HOOK_PEER_CONNECT_FAILED
| HOOK_OTHER (n : Z).

(** The calls the stack makes on a peer, on its listener and on
    freeDiameter. *)
Inductive PeerEvent : Type :=
| Ev_connection_succeeded (p : Peer)
| Ev_set_connected (p : Peer)
| Ev_connection_failed (p : Peer)
| Ev_fd_peer_remove (host : string).

(** The loop of [Stack::fd_hook_cb] over [_peers], for a hook of type
    [type] about [host]: the peer list it leaves and the calls it makes. *)
Fixpoint hook_scan (type : fd_hook_type) (host : string) (peers : list Peer)
    : list Peer * list PeerEvent :=
  match peers with
  | [] => ([], [])
  | p :: rest =>
      if String.eqb (peer_host p) host then
        match type with
        | HOOK_PEER_CONNECT_SUCCESS =>
            (p :: rest, [Ev_connection_succeeded p; Ev_set_connected p])
        | HOOK_PEER_CONNECT_FAILED => (rest, [Ev_connection_failed p])
        | HOOK_OTHER _ =>
            let '(rest', evs) := hook_scan type host rest in (p :: rest', evs)
        end
      else
        let '(rest', evs) := hook_scan type host rest in (p :: rest', evs)
  end.

(** [Stack::fd_hook_cb]; [peer] is the host name of the peer the hook is
    about, [None] for a NULL peer. *)
Definition fd_hook_cb (type : fd_hook_type) (peer : option string)
    (_peers : list Peer) : list Peer * list PeerEvent :=
  match type with
  | HOOK_OTHER _ => (_peers, [])
  | _ =>
      match peer with
      | None => (_peers, [])
      | Some host => hook_scan type host _peers
      end
  end.

(** [Stack::add], after the peer information is filled in; [rc] is what
    [fd_peer_add] returns. *)
Definition stack_add (rc : Z) (peer : Peer) (_peers : list Peer)
    : bool * list Peer :=
  if rc =? 0 then (true, _peers ++ [peer]) else (false, _peers).

(** [std::find] on the pointers, then [erase]. *)
Fixpoint erase_first (ptr : nat) (peers : list Peer) : list Peer :=
  match peers with
  | [] => []
  | p :: rest =>
      if (peer_ptr p =? ptr)%nat then rest else p :: erase_first ptr rest
  end.

(** [Stack::remove] *)
Definition stack_remove (peer : Peer) (_peers : list Peer)
    : list Peer * list PeerEvent :=
  (erase_first (peer_ptr peer) _peers, [Ev_fd_peer_remove (peer_host peer)]).


(** Every character of [s] passes [p]. *)
Fixpoint all_chars (p : ascii -> bool) (s : string) : bool :=
  match s with
  | EmptyString => true
  | String c s' => p c && all_chars p s'
  end.

Definition isupper (c : ascii) : bool :=
  let n := nat_of_ascii c in (65 <=? n)%nat && (n <=? 90)%nat.




(** ** The pool entries of one connection object *)

(** The number of pool entries whose remote IP is [ip]. *)
Definition occurrences (ip : string) (es : list PoolEntry) : nat :=
  length (filter (fun e => _remote_ip e = ip) es).

(** The statistics table agrees with the pool entries [es] of the threads:
    it has a row for exactly the non-empty remote IPs in use, and the row
    counts the entries that use the IP. *)
Definition stat_consistent (c : HttpConnection) (es : list PoolEntry) : Prop :=
  exists t, _stat_table c = Some t
    ∧ forall ip, t !! ip
        = (if decide (ip = "" ∨ occurrences ip es = 0%nat) then None
           else Some (Z.of_nat (occurrences ip es))).

(** [set_remote_ip] on the [i]-th pool entry. *)
Definition set_remote_ip_at (i : nat) (value : string)
    (ces : HttpConnection * list PoolEntry) : HttpConnection * list PoolEntry :=
  match ces.2 !! i with
  | None => ces
  | Some e =>
      let '(c', e') := set_remote_ip value (ces.1, e) in (c', <[i := e']> ces.2)
  end.

(** [HttpConnection::cleanup_curl] for the [i]-th pool entry: the remote IP
    is set to the empty string and the entry is deleted. *)
Definition cleanup_curl_at (i : nat) (ces : HttpConnection * list PoolEntry)
    : HttpConnection * list PoolEntry :=
  let ces' := set_remote_ip_at i "" ces in (ces'.1, delete i ces'.2).

(** What the threads do to the pool: a thread gets its handle for the
    first time ([get_curl_handle] creates its entry), an entry has its
    remote IP set, a thread's handle is cleaned up. *)
Inductive PoolOp : Type :=
| Op_new_entry (sampler : nat -> Z)
| Op_set_remote_ip (i : nat) (value : string)
| Op_cleanup_curl (i : nat).

Definition pool_step (ces : HttpConnection * list PoolEntry) (op : PoolOp)
    : HttpConnection * list PoolEntry :=
  match op with
  | Op_new_entry sampler => (ces.1, ces.2 ++ [new_PoolEntry sampler])
  | Op_set_remote_ip i value => set_remote_ip_at i value ces
  | Op_cleanup_curl i => cleanup_curl_at i ces
  end.

Definition pool_run (ops : list PoolOp) (ces : HttpConnection * list PoolEntry)
    : HttpConnection * list PoolEntry :=
  foldl pool_step ces ops.



(** ** Reading the log: the set-up of the transfers *)

(** The options each transfer ran with: the [CURLOPT_RESOLVE] list, the
    URL and the request headers. *)
Definition transfer_setups (l : list Event)
    : list (list string * string * list string) :=
  omap (fun ev => match ev with
                  | Ev_perform _ _ host_resolve ip_url hdrs _ =>
                      Some (host_resolve, ip_url, hdrs)
                  | _ => None
                  end) l.

(** The calls on the communication monitor: [true] for [inform_success],
    [false] for [inform_failure], with the time passed. *)
Definition comm_events (l : list Event) : list (bool * Z) :=
  omap (fun ev => match ev with
                  | Ev_inform_success now_ms => Some (true, now_ms)
                  | Ev_inform_failure now_ms => Some (false, now_ms)
                  | _ => None
                  end) l.

(** The events that follow the transfer inside one iteration of the loop. *)
Definition is_feedback (ev : Event) : bool :=
  match ev with
  | Ev_sas_log_http_req _
  | Ev_sas_log_http_rsp _ _
  | Ev_sas_log_curl_error _ _ _
  | Ev_blacklist _
  | Ev_sas_log_http_abort _ => true
  | _ => false
  end.

(** The override a transfer to [i] installs, the directive it leaves behind
    to remove it, and its URL. *)
Definition resolve_add (env : Env) (c : HttpConnection) (i : AddrInfo)
    : string :=
  _host c +:+ ":" +:+ pretty (port i) +:+ ":" +:+ inet_ntop env (address i).

Definition resolve_remove (c : HttpConnection) (i : AddrInfo) : string :=
  "-" +:+ _host c +:+ ":" +:+ pretty (port i).

Definition target_url (c : HttpConnection) (path : string) (i : AddrInfo)
    : string :=
  _scheme c +:+ "://" +:+ _host c +:+ ":" +:+ pretty (port i) +:+ path.

(** The set-up of the transfers to the targets [tried], in order, when the
    pool entry holds the directives [note] before the first of them: each
    transfer applies the directives left before it and adds its own
    override, and leaves the directive that removes that override. *)
Fixpoint expected_setups (env : Env) (c : HttpConnection) (path : string)
    (hdrs : list string) (note : list string) (tried : list AddrInfo)
    : list (list string * string * list string) :=
  match tried with
  | [] => []
  | i :: rest =>
      (note ++ [resolve_add env c i], target_url c path i, hdrs)
        :: expected_setups env c path hdrs [resolve_remove c i] rest
  end.







(** * Properties *)

(** ** Reading the log: basic facts *)

Lemma performed_app l1 l2 : performed (l1 ++ l2) = performed l1 ++ performed l2.
Proof. apply omap_app. Qed.

Lemma blacklist_calls_app l1 l2 :
  blacklist_calls (l1 ++ l2) = blacklist_calls l1 ++ blacklist_calls l2.
Proof. apply omap_app. Qed.

Lemma abort_events_app l1 l2 :
  abort_events (l1 ++ l2) = abort_events l1 ++ abort_events l2.
Proof. apply omap_app. Qed.

Lemma penalty_calls_app l1 l2 :
  penalty_calls (l1 ++ l2) = (penalty_calls l1 + penalty_calls l2)%nat.
Proof. unfold penalty_calls. by rewrite omap_app, length_app. Qed.

(** The SAS request, response and error helpers report none of the calls
    the properties below count. *)
Lemma sas_log_http_req_quiet c b :
  performed (sas_log_http_req c b) = []
  ∧ blacklist_calls (sas_log_http_req c b) = []
  ∧ abort_events (sas_log_http_req c b) = []
  ∧ penalty_calls (sas_log_http_req c b) = 0%nat.
Proof. unfold sas_log_http_req. by destruct (_sas_log_level c). Qed.

Lemma sas_log_http_rsp_quiet c n b :
  performed (sas_log_http_rsp c n b) = []
  ∧ blacklist_calls (sas_log_http_rsp c n b) = []
  ∧ abort_events (sas_log_http_rsp c n b) = []
  ∧ penalty_calls (sas_log_http_rsp c n b) = 0%nat.
Proof. unfold sas_log_http_rsp. by destruct (_sas_log_level c). Qed.

Lemma sas_log_curl_error_quiet c ip p code :
  performed (sas_log_curl_error c ip p code) = []
  ∧ blacklist_calls (sas_log_curl_error c ip p code) = []
  ∧ abort_events (sas_log_curl_error c ip p code) = []
  ∧ penalty_calls (sas_log_curl_error c ip p code) = 0%nat.
Proof. unfold sas_log_curl_error. by destruct (_sas_log_level c). Qed.

(** ** One iteration of the loop *)

Section Attempt.

Context (env : Env) (c : HttpConnection) (path : string)
        (hdrs : list string) (recycle_conn : bool) (now_ms : Z).

Lemma success_iff_ok r :
  bool_decide (reply_rc r = CURLE_OK) && negb (400 <=? http_rc_of r)
  = bool_decide (classify r = ok).
Proof.
  unfold http_rc_of, classify. destruct r as [rc1 code pip hl bl rq rs]; simpl.
  destruct rc1; simpl; try reflexivity.
  destruct (Z.leb_spec 400 code), (Z.ltb_spec code 400); try lia; simpl;
    [|reflexivity].
  by destruct (code =? 503), (code =? 504).
Qed.

Lemma count_failure_classify r s :
  classify r <> ok ->
  count_failure (reply_rc r) (http_rc_of r) s
  = (num_http_503_responses s + bump http_503 (classify r),
     num_http_504_responses s + bump http_504 (classify r),
     num_timeouts_or_io_errors s + bump timeout_or_io (classify r),
     is_fatal (classify r)).
Proof.
  unfold http_rc_of, classify, count_failure, bump.
  destruct r as [rc1 code pip hl bl rq rs]; simpl.
  destruct rc1; simpl; intros Hne; rewrite ?Z.add_0_r; try reflexivity.
  destruct (Z.leb_spec 400 code), (Z.ltb_spec code 400); try lia; simpl;
    [|done].
  destruct (Z.eqb_spec code 503); simpl; [by rewrite ?Z.add_0_r|].
  destruct (Z.eqb_spec code 504); simpl; by rewrite ?Z.add_0_r.
Qed.

Lemma blacklist_condition r :
  classify r <> ok ->
  negb (400 <=? http_rc_of r)
    && (negb (bool_decide (reply_rc r = CURLE_REMOTE_FILE_NOT_FOUND))
        && negb (bool_decide (reply_rc r = CURLE_REMOTE_ACCESS_DENIED)))
  = transfer_failed r.
Proof.
  unfold http_rc_of, classify, transfer_failed.
  destruct r as [rc1 code pip hl bl rq rs]; simpl.
  destruct rc1; simpl; intros Hne; try reflexivity.
  destruct (Z.leb_spec 400 code), (Z.ltb_spec code 400); try lia; simpl;
    done.
Qed.

Lemma attempt_spec k i s :
  let r := curl_easy_perform env k i recycle_conn in
  let o := classify r in
  let s' := (attempt env c path hdrs recycle_conn now_ms k i s).1 in
  let stop := (attempt env c path hdrs recycle_conn now_ms k i s).2 in
  (∃ evs,
    log s' = log s ++ evs
    ∧ performed evs = [(i, recycle_conn, r)]
    ∧ blacklist_calls evs
      = (if recycle_conn && transfer_failed r then [i] else [])
    ∧ abort_events evs
      = (if bool_decide (o = ok) then []
         else if is_fatal o then [Permanent]
         else if over_budget s' then [Temporary] else [])
    ∧ penalty_calls evs = 0%nat)
  ∧ num_http_503_responses s' = num_http_503_responses s + bump http_503 o
  ∧ num_http_504_responses s' = num_http_504_responses s + bump http_504 o
  ∧ num_timeouts_or_io_errors s'
    = num_timeouts_or_io_errors s + bump timeout_or_io o
  ∧ stop = bool_decide (o = ok) || is_fatal o || over_budget s'
  ∧ rc s' = reply_rc r
  ∧ remote_ip s' = Some (inet_ntop env (address i))
  ∧ handle s' = mkCurlHandle (reply_primary_ip r) (reply_response_code r)
  ∧ doc s' = foldl (fun d chunk => string_store chunk d) "" (reply_body r)
  ∧ headers s'
    = (fun m => foldl (fun m line => write_headers line m) m (reply_headers r))
        <$> headers s
  ∧ _remote_ip (entry s') = _remote_ip (entry s)
  ∧ _deadline_ms (entry s')
    = (if bool_decide (o = ok) && recycle_conn
       then _deadline_ms (update_deadline now_ms (entry s))
       else _deadline_ms (entry s)).
Proof.
  intros r o s' stop. subst s' stop o. unfold attempt. fold r.
  set (lreq := if decide (reply_request r = "") then []
               else sas_log_http_req c (reply_request r)).
  assert (Hreq : performed lreq = [] ∧ blacklist_calls lreq = []
                 ∧ abort_events lreq = [] ∧ penalty_calls lreq = 0%nat).
  { subst lreq. destruct (decide _); [done|]. apply sas_log_http_req_quiet. }
  clearbody lreq. destruct Hreq as (Hq1 & Hq2 & Hq3 & Hq4).
  set (lrsp := if bool_decide (reply_rc r = CURLE_OK)
               then sas_log_http_rsp _ _ _ else _).
  assert (Hrsp : performed lrsp = [] ∧ blacklist_calls lrsp = []
                 ∧ abort_events lrsp = [] ∧ penalty_calls lrsp = 0%nat).
  { subst lrsp. destruct (bool_decide _);
      [apply sas_log_http_rsp_quiet | apply sas_log_curl_error_quiet]. }
  clearbody lrsp. destruct Hrsp as (Hr1 & Hr2 & Hr3 & Hr4).
  cbn [CURLINFO_RESPONSE_CODE].
  change (if bool_decide (reply_rc r = CURLE_OK)
          then reply_response_code r else 0) with (http_rc_of r).
  rewrite success_iff_ok. clearbody r.
  destruct (decide (classify r = ok)) as [Hok|Hne].
  - rewrite bool_decide_eq_true_2 by done. cbn [fst snd]. rewrite Hok.
    split;
      [|repeat split; try reflexivity;
        try (unfold bump; repeat case_decide; try discriminate; cbn; lia);
        by destruct recycle_conn].
    eexists. split; [reflexivity|].
    rewrite ?performed_app, ?blacklist_calls_app, ?abort_events_app,
      ?penalty_calls_app, Hq1, Hq2, Hq3, Hq4, Hr1, Hr2, Hr3, Hr4.
    repeat split.
    destruct recycle_conn; [|done]. cbn.
    unfold transfer_failed, classify in *.
    destruct (reply_rc r); try done.
  - rewrite bool_decide_eq_false_2 by done.
    rewrite count_failure_classify by done.
    rewrite <- !andb_assoc, blacklist_condition by done.
    set (n503 := num_http_503_responses s + _).
    set (n504 := num_http_504_responses s + _).
    set (nto := num_timeouts_or_io_errors s + _).
    destruct (is_fatal (classify r)) eqn:Hfatal.
    + rewrite orb_true_r. cbn [fst snd].
      repeat split; try reflexivity.
      eexists. split; [rewrite <- app_assoc; reflexivity|].
      rewrite ?performed_app, ?blacklist_calls_app, ?abort_events_app,
        ?penalty_calls_app, Hq1, Hq2, Hq3, Hq4, Hr1, Hr2, Hr3, Hr4.
      repeat split; destruct (recycle_conn && transfer_failed r); done.
    + rewrite orb_false_r.
      destruct ((2 <=? n503 + nto) || (1 <=? n504)) eqn:Hb; cbn [fst snd];
        unfold over_budget;
        cbn [num_http_503_responses num_http_504_responses
             num_timeouts_or_io_errors];
        rewrite Hb.
      * repeat split; try reflexivity.
        eexists. split; [rewrite <- app_assoc; reflexivity|].
        rewrite ?performed_app, ?blacklist_calls_app, ?abort_events_app,
          ?penalty_calls_app, Hq1, Hq2, Hq3, Hq4, Hr1, Hr2, Hr3, Hr4.
        repeat split; destruct (recycle_conn && transfer_failed r); done.
      * repeat split; try reflexivity.
        eexists. split; [rewrite <- app_assoc; reflexivity|].
        rewrite ?performed_app, ?blacklist_calls_app, ?abort_events_app,
          ?penalty_calls_app, Hq1, Hq2, Hq3, Hq4, Hr1, Hr2, Hr3, Hr4.
        repeat split; destruct (recycle_conn && transfer_failed r); done.
Qed.

Lemma count_of_cons x o l : count_of x (o :: l) = bump x o + count_of x l.
Proof.
  unfold count_of, bump. rewrite filter_cons.
  destruct (decide (o = x)); cbn [length]; lia.
Qed.

Lemma abort_of_cons o outs spent :
  o <> ok -> is_fatal o = false -> (outs = [] -> spent = false) ->
  abort_of (o :: outs) spent = abort_of outs spent.
Proof.
  intros Hne Hf Hs. unfold abort_of. rewrite last_cons.
  destruct (last outs) eqn:Hl; [done|].
  apply last_None in Hl. rewrite bool_decide_eq_false_2, Hf, Hs; done.
Qed.

Lemma attempt_loop_spec targets : forall k s,
  let s' := attempt_loop env c path hdrs recycle_conn now_ms k targets s in
  let att :=
    expected_transfers env recycle_conn k targets (num_http_503_responses s)
      (num_http_504_responses s) (num_timeouts_or_io_errors s) in
  performed (log s') = performed (log s) ++ att
  ∧ blacklist_calls (log s') = blacklist_calls (log s) ++ blacklisted_of att
  ∧ abort_events (log s')
    = abort_events (log s) ++ abort_of (outcomes att) (over_budget s')
  ∧ penalty_calls (log s') = penalty_calls (log s)
  ∧ num_http_503_responses s'
    = num_http_503_responses s + count_of http_503 (outcomes att)
  ∧ num_http_504_responses s'
    = num_http_504_responses s + count_of http_504 (outcomes att)
  ∧ num_timeouts_or_io_errors s'
    = num_timeouts_or_io_errors s + count_of timeout_or_io (outcomes att)
  ∧ match last att with
    | None => s' = s
    | Some (i, _, r) =>
        rc s' = reply_rc r
        ∧ remote_ip s' = Some (inet_ntop env (address i))
        ∧ handle s' = mkCurlHandle (reply_primary_ip r) (reply_response_code r)
        ∧ doc s' = foldl (fun d chunk => string_store chunk d) "" (reply_body r)
    end
  ∧ headers s'
    = (fun m => foldl (fun m line => write_headers line m) m (header_lines att))
        <$> headers s
  ∧ _remote_ip (entry s') = _remote_ip (entry s).
Proof.
  induction targets as [|i rest IH]; intros k s; cbn zeta.
  - cbn [attempt_loop expected_transfers]. unfold blacklisted_of, abort_of.
    cbn. rewrite !app_nil_r, !Z.add_0_r.
    repeat split; try done. by destruct (headers s).
  - cbn [attempt_loop expected_transfers].
    pose proof (attempt_spec k i s) as Hat. cbn zeta in Hat.
    destruct (attempt env c path hdrs recycle_conn now_ms k i s)
      as [s1 stop] eqn:Hatt.
    cbn [fst snd] in Hat.
    set (r := curl_easy_perform env k i recycle_conn) in *.
    destruct Hat as ((evs & Hlog & Hperf & Hbl & Hab & Hpen)
                     & H503 & H504 & Hto & Hstop & Hrc & Hip & Hh & Hdoc
                     & Hhdr & Hrip & _).
    unfold over_budget in Hstop. rewrite H503, H504, Hto in Hstop.
    rewrite <- Hstop.
    destruct stop.
    + (* the loop is left after this transfer *)
      rewrite Hlog, performed_app, blacklist_calls_app, abort_events_app,
        penalty_calls_app, Hperf, Hbl, Hab, Hpen.
      unfold outcomes. cbn [fmap list_fmap last snd].
      rewrite !count_of_cons. unfold count_of. rewrite !filter_nil.
      unfold blacklisted_of, abort_of, header_lines.
      rewrite filter_cons, filter_nil. cbn [fst snd fmap list_fmap last concat length].
      rewrite app_nil_r.
      repeat split; try done; try lia.
      destruct (recycle_conn && transfer_failed r);
        [by rewrite decide_True | by rewrite decide_False].
    + (* the loop goes on to the next target *)
      specialize (IH (S k) s1). cbn zeta in IH.
      rewrite H503, H504, Hto in IH.
      set (att' := expected_transfers env recycle_conn (S k) rest _ _ _) in *.
      destruct IH as (Iperf & Ibl & Iab & Ipen & I503 & I504 & Ito & Ilast
                      & Ihdr & Irip).
      symmetry in Hstop. apply orb_false_iff in Hstop as [Hstop Hsp].
      apply orb_false_iff in Hstop as [Hnok Hnf].
      apply bool_decide_eq_false in Hnok.
      rewrite bool_decide_eq_false_2, Hnf in Hab by done.
      assert (Hsp1 : over_budget s1 = false).
      { unfold over_budget. by rewrite H503, H504, Hto. }
      rewrite Hsp1 in Hab.
      split; [|split; [|split; [|split; [|split; [|split; [|split;
        [|split; [|split]]]]]]]].
      * by rewrite Iperf, Hlog, performed_app, Hperf, <- app_assoc.
      * rewrite Ibl, Hlog, blacklist_calls_app, Hbl, <- app_assoc.
        f_equal. unfold blacklisted_of. rewrite filter_cons.
        cbn [fst snd].
        destruct (recycle_conn && transfer_failed r);
          [by rewrite decide_True | by rewrite decide_False].
      * rewrite Iab, Hlog, abort_events_app, Hab, app_nil_r. f_equal.
        unfold outcomes. cbn [fmap list_fmap snd]. fold r.
        rewrite abort_of_cons; try done.
        intros Hnil. apply fmap_nil_inv in Hnil. rewrite Hnil in Ilast.
        cbn in Ilast. by rewrite Ilast.
      * by rewrite Ipen, Hlog, penalty_calls_app, Hpen, Nat.add_0_r.
      * unfold outcomes. cbn [fmap list_fmap snd]. rewrite count_of_cons.
        fold r. unfold outcomes in I503. lia.
      * unfold outcomes. cbn [fmap list_fmap snd]. rewrite count_of_cons.
        fold r. unfold outcomes in I504. lia.
      * unfold outcomes. cbn [fmap list_fmap snd]. rewrite count_of_cons.
        fold r. unfold outcomes in Ito. lia.
      * rewrite last_cons. destruct (last att') as [[[i' f'] r']|]; [done|].
        rewrite Ilast. done.
      * rewrite Ihdr, Hhdr. unfold header_lines.
        cbn [fmap list_fmap concat snd]. fold r.
        destruct (headers s); [|done]. cbn. by rewrite foldl_app.
      * by rewrite Irip.
Qed.

(** ** The expected transfers *)

Lemma spent_from_cons a b d o l :
  spent_from a b d (o :: l)
  = spent_from (a + bump http_503 o) (b + bump http_504 o)
               (d + bump timeout_or_io o) l.
Proof.
  unfold spent_from. rewrite !count_of_cons.
  f_equal; f_equal; lia.
Qed.

Lemma spent_from_nil a b d :
  spent_from a b d [] = (2 <=? a + d) || (1 <=? b).
Proof. unfold spent_from, count_of. cbn. by rewrite !Z.add_0_r. Qed.

Lemma expected_transfers_lookup targets : forall k a b d j i f r,
  expected_transfers env recycle_conn k targets a b d !! j = Some (i, f, r) ->
  targets !! j = Some i ∧ f = recycle_conn
  ∧ r = curl_easy_perform env (k + j) i recycle_conn.
Proof.
  induction targets as [|t rest IH]; intros k a b d j i f r; [done|].
  cbn [expected_transfers]. destruct j as [|j].
  - cbn. intros [= <- <- <-]. by rewrite Nat.add_0_r.
  - cbn [lookup list_lookup].
    destruct (bool_decide _ || _ || _); [done|].
    intros H. apply IH in H as (H1 & H2 & H3).
    by rewrite <- Nat.add_succ_comm.
Qed.

Lemma expected_transfers_length targets k a b d :
  (length (expected_transfers env recycle_conn k targets a b d)
   <= length targets)%nat.
Proof.
  revert k a b d. induction targets as [|t rest IH]; intros k a b d; [done|].
  cbn [expected_transfers length].
  destruct (bool_decide _ || _ || _); cbn [length]; [lia|].
  specialize (IH (S k) (a + bump http_503 (classify (curl_easy_perform env k t recycle_conn)))
    (b + bump http_504 (classify (curl_easy_perform env k t recycle_conn)))
    (d + bump timeout_or_io (classify (curl_easy_perform env k t recycle_conn)))).
  lia.
Qed.

Lemma expected_transfers_nonempty targets k a b d :
  targets <> [] ->
  expected_transfers env recycle_conn k targets a b d <> [].
Proof. by destruct targets. Qed.

Lemma expected_transfers_rule targets : forall k a b d j o,
  let outs := outcomes (expected_transfers env recycle_conn k targets a b d) in
  outs !! j = Some o ->
  (is_Some (outs !! S j)
   <-> o <> ok ∧ is_fatal o = false
       ∧ spent_from a b d (take (S j) outs) = false
       ∧ (S j < length targets)%nat).
Proof.
  induction targets as [|t rest IH]; intros k a b d j o; cbn zeta; [done|].
  cbn [expected_transfers]. unfold outcomes. cbn [fmap list_fmap snd].
  set (r := curl_easy_perform env k t recycle_conn).
  set (a' := a + bump http_503 (classify r)).
  set (b' := b + bump http_504 (classify r)).
  set (d' := d + bump timeout_or_io (classify r)).
  fold (outcomes (if bool_decide (classify r = ok) || is_fatal (classify r)
                     || ((2 <=? a' + d') || (1 <=? b'))
                  then []
                  else expected_transfers env recycle_conn (S k) rest a' b' d')).
  destruct j as [|j].
  - cbn [lookup list_lookup take]. intros [= <-].
    rewrite spent_from_cons, spent_from_nil. fold a' b' d'.
    destruct (bool_decide (classify r = ok)) eqn:Hok; cbn [orb].
    { apply bool_decide_eq_true in Hok. cbn. split; [by intros [? ?]|].
      by intros (? & _). }
    apply bool_decide_eq_false in Hok.
    destruct (is_fatal (classify r)); cbn [orb].
    { cbn. split; [by intros [? ?]|]. by intros (_ & ? & _). }
    destruct ((2 <=? a' + d') || (1 <=? b')).
    { cbn. split; [by intros [? ?]|]. by intros (_ & _ & ? & _). }
    destruct rest as [|t' rest'].
    { cbn. split; [by intros [? ?]|]. intros (_ & _ & _ & ?). lia. }
    cbn. split; [|by eauto]. intros _. repeat split; try done. lia.
  - cbn [lookup list_lookup take]. rewrite spent_from_cons. fold a' b' d'.
    destruct (bool_decide (classify r = ok) || is_fatal (classify r)
              || ((2 <=? a' + d') || (1 <=? b'))); [done|].
    intros Hj. apply (IH (S k) a' b' d' j o) in Hj. cbn zeta in Hj.
    rewrite Hj. cbn [length]. split; intros (? & ? & ? & ?); repeat split;
      try done; lia.
Qed.

End Attempt.

(** ** The whole call *)

Lemma set_remote_ip_stored value ce :
  _remote_ip (set_remote_ip value ce).2 = value.
Proof.
  destruct ce as [c e]. unfold set_remote_ip.
  destruct (decide (value = _remote_ip e)); [done|].
  by destruct (_stat_table c).
Qed.

Section Call.

Context (env : Env) (c : HttpConnection) (e : PoolEntry) (curl : CurlHandle)
        (path body doc0 : string) (hdr : option (gmap string string))
        (username : string) (headers_to_add : list string) (now_ms : Z)
        (uuid_str : string).

Lemma send_request_spec :
  let r := send_request env c e curl path body doc0 hdr username
                        headers_to_add now_ms uuid_str in
  let recycle_conn := is_connection_expired now_ms e in
  let att :=
    expected_transfers env recycle_conn 0
      (assemble_targets env c curl recycle_conn) 0 0 0 in
  res_targets r = assemble_targets env c curl recycle_conn
  ∧ performed (log (res_state r)) = att
  ∧ blacklist_calls (log (res_state r)) = blacklisted_of att
  ∧ abort_events (log (res_state r))
    = abort_of (outcomes att) (budget_spent (outcomes att))
  ∧ penalty_calls (log (res_state r))
    = (if ((2 <=? count_of http_503 (outcomes att))
           || (1 <=? count_of http_504 (outcomes att)))
          && _load_monitor c
       then 1%nat else 0%nat)
  ∧ rc (res_state r)
    = match last att with
      | None => CURLE_COULDNT_RESOLVE_HOST
      | Some (_, _, rep) => reply_rc rep
      end
  ∧ res_code r
    = match last att with
      | None => HTTP_NOT_FOUND
      | Some (_, _, rep) =>
          curl_code_to_http_code
            (mkCurlHandle (reply_primary_ip rep) (reply_response_code rep))
            (reply_rc rep)
      end
  ∧ _remote_ip (entry (res_state r))
    = match last att with
      | None => ""
      | Some (i, _, rep) =>
          if bool_decide (reply_rc rep = CURLE_OK)
          then read_expired_buf env (inet_ntop env (address i)) else ""
      end
  ∧ doc (res_state r)
    = match last att with
      | None => doc0
      | Some (_, _, rep) =>
          foldl (fun d chunk => string_store chunk d) "" (reply_body rep)
      end
  ∧ headers (res_state r)
    = (fun m => foldl (fun m line => write_headers line m) m (header_lines att))
        <$> hdr
  ∧ (exists l1 l2, log (res_state r) = l1 ++ l2
                   ∧ penalty_calls l1 = 0%nat ∧ performed l2 = []).
Proof.
  intros r recycle_conn att. subst r att. unfold send_request.
  fold recycle_conn.
  set (hdrs := extra_headers env c body username uuid_str headers_to_add).
  set (targets := assemble_targets env c curl recycle_conn) in *.
  set (s0 := mkLoopState 0 0 0 CURLE_COULDNT_RESOLVE_HOST None e curl doc0 hdr
                         [Ev_report_marker uuid_str]).
  pose proof (attempt_loop_spec env c path hdrs recycle_conn now_ms targets 0 s0)
    as Hl.
  cbn zeta in Hl.
  cbn [num_http_503_responses num_http_504_responses
       num_timeouts_or_io_errors s0] in Hl.
  set (att := expected_transfers env recycle_conn 0 targets 0 0 0) in *.
  set (s1 := attempt_loop env c path hdrs recycle_conn now_ms 0 targets s0) in *.
  destruct Hl as (Hperf & Hbl & Hab & Hpen & H503 & H504 & Hto & Hlast & Hhdr
                  & Hrip).
  cbn [num_http_503_responses num_http_504_responses
       num_timeouts_or_io_errors log headers s0] in *.
  rewrite Z.add_0_l in H503, H504, Hto.
  assert (Hob : over_budget s1 = budget_spent (outcomes att)).
  { unfold over_budget, budget_spent. by rewrite H503, H504, Hto. }
  rewrite Hob in Hab.
  set (lpen := if ((2 <=? num_http_503_responses s1)
                   || (1 <=? num_http_504_responses s1)) && _load_monitor c
               then [Ev_incr_penalties] else []).
  assert (Hlpen : performed lpen = [] ∧ blacklist_calls lpen = []
                  ∧ abort_events lpen = []).
  { subst lpen. by destruct (_ && _). }
  destruct Hlpen as (Hp1 & Hp2 & Hp3).
  assert (Hcomm : forall l : list Event,
            l = [] ∨ l = [Ev_inform_failure now_ms]
            ∨ l = [Ev_inform_success now_ms] ->
            performed l = [] ∧ blacklist_calls l = [] ∧ abort_events l = []
            ∧ penalty_calls l = 0%nat).
  { intros l [->|[->| ->]]; done. }
  assert (Hrc : rc s1 = match last att with
                        | None => CURLE_COULDNT_RESOLVE_HOST
                        | Some (_, _, rep) => reply_rc rep
                        end).
  { destruct (last att) as [[[i f] rep]|]; [apply Hlast|by rewrite Hlast]. }
  destruct (bool_decide (rc s1 = CURLE_OK)) eqn:Hok.
  - set (stale := default "" (read_expired_buf env <$> remote_ip s1)).
    destruct (set_remote_ip stale (c, entry s1)) as [c' e'] eqn:Hset.
    pose proof (set_remote_ip_stored stale (c, entry s1)) as Hst.
    rewrite Hset in Hst. cbn [snd] in Hst.
    set (lcomm := if _comm_monitor c then _ else _).
    destruct (Hcomm lcomm) as (Hc1 & Hc2 & Hc3 & Hc4).
    { subst lcomm. destruct (_comm_monitor c); [|by left].
      destruct (2 <=? _); auto. }
    cbn [res_targets res_state res_code with_entry_log log rc entry doc headers].
    rewrite !performed_app, !blacklist_calls_app, !abort_events_app,
      !penalty_calls_app, Hperf, Hbl, Hab, Hpen, Hp1, Hp2, Hp3, Hc1, Hc2, Hc3,
      Hc4, !app_nil_r, Nat.add_0_r.
    repeat split; try done.
    + subst lpen. rewrite H503, H504.
      destruct (((2 <=? count_of http_503 (outcomes att)) || _)
                && _load_monitor c); reflexivity.
    + destruct (last att) as [[[i f] rep]|]; [|by rewrite Hlast].
      destruct Hlast as (-> & _ & -> & _). done.
    + rewrite Hst. subst stale. apply bool_decide_eq_true in Hok.
      destruct (last att) as [[[i f] rep]|].
      * destruct Hlast as (Hr & -> & _). rewrite Hr in Hok.
        by rewrite bool_decide_eq_true_2.
      * by rewrite Hlast in Hok.
    + destruct (last att) as [[[i f] rep]|]; [apply Hlast|by rewrite Hlast].
    + exists (log s1), (lpen ++ lcomm). rewrite performed_app, Hp1, Hc1, Hpen.
      done.
  - destruct (set_remote_ip "" (c, entry s1)) as [c' e'] eqn:Hset.
    pose proof (set_remote_ip_stored "" (c, entry s1)) as Hst.
    rewrite Hset in Hst. cbn [snd] in Hst.
    set (lcomm := if _comm_monitor c then _ else _).
    destruct (Hcomm lcomm) as (Hc1 & Hc2 & Hc3 & Hc4).
    { subst lcomm. destruct (_comm_monitor c); auto. }
    cbn [res_targets res_state res_code with_entry_log log rc entry doc headers].
    rewrite !performed_app, !blacklist_calls_app, !abort_events_app,
      !penalty_calls_app, Hperf, Hbl, Hab, Hpen, Hp1, Hp2, Hp3, Hc1, Hc2, Hc3,
      Hc4, !app_nil_r, Nat.add_0_r.
    repeat split; try done.
    + subst lpen. rewrite H503, H504.
      destruct (((2 <=? count_of http_503 (outcomes att)) || _)
                && _load_monitor c); reflexivity.
    + destruct (last att) as [[[i f] rep]|]; [|by rewrite Hlast].
      destruct Hlast as (-> & _ & -> & _). done.
    + rewrite Hst. apply bool_decide_eq_false in Hok.
      destruct (last att) as [[[i f] rep]|]; [|done].
      destruct Hlast as (Hr & _). rewrite Hr in Hok.
      by rewrite bool_decide_eq_false_2.
    + destruct (last att) as [[[i f] rep]|]; [apply Hlast|by rewrite Hlast].
    + exists (log s1), (lpen ++ lcomm). rewrite performed_app, Hp1, Hc1, Hpen.
      done.
Qed.

End Call.

(** ** Target assembly *)

Lemma sticky_first_nil env c curl recycle_conn :
  sticky_first env c curl recycle_conn [] = [].
Proof.
  unfold sticky_first. destruct recycle_conn; [done|].
  by destruct (CURLINFO_PRIMARY_IP curl).
Qed.

Lemma sticky_first_nonempty env c curl recycle_conn targets :
  targets <> [] -> sticky_first env c curl recycle_conn targets <> [].
Proof.
  intros Hne. unfold sticky_first. destruct recycle_conn; [done|].
  destruct (CURLINFO_PRIMARY_IP curl); [|done].
  by destruct (_ <? _)%nat.
Qed.

Lemma sticky_first_single env c curl recycle_conn t :
  sticky_first env c curl recycle_conn [t] = [t].
Proof.
  unfold sticky_first. destruct recycle_conn; [done|].
  destruct (CURLINFO_PRIMARY_IP curl) as [ip|]; [|done].
  rewrite filter_cons, filter_nil.
  destruct (decide (t <> _)) as [Hne|Heq]; [done|].
  cbn. apply dec_stable in Heq. by rewrite Heq.
Qed.

Lemma clone_single_nonempty targets :
  targets <> [] -> clone_single targets <> [].
Proof. by destruct targets as [|? [|? ?]]. Qed.

(** ** The returned code *)

(** C1, as amended.  [send_request] always returns an [HTTPCode] fixed by
    the last transfer of the call: the status from the wire when the
    transfer succeeded; 400 for URL-malformed and for not-built-in; 404 for
    remote-file-not-found, could-not-resolve-proxy, could-not-resolve-host,
    could-not-connect and for [CURLE_AGAIN]; 500 for every other transport
    failure.  When the resolver returns no target there is no transfer and
    no blacklist call, and the code is 404. *)
Theorem send_request_http_code env c e curl path body doc0 hdr username
    headers_to_add now_ms uuid_str :
  let r := send_request env c e curl path body doc0 hdr username
                        headers_to_add now_ms uuid_str in
  match last (performed (log (res_state r))) with
  | None => res_code r = 404
  | Some (_, _, rep) =>
      res_code r
      = match reply_rc rep with
        | CURLE_OK => reply_response_code rep
        | CURLE_URL_MALFORMAT | CURLE_NOT_BUILT_IN => 400
        | CURLE_REMOTE_FILE_NOT_FOUND
        | CURLE_COULDNT_RESOLVE_PROXY
        | CURLE_COULDNT_RESOLVE_HOST
        | CURLE_COULDNT_CONNECT
        | CURLE_AGAIN => 404
        | _ => 500
        end
  end
  ∧ (resolve env (_host c) (_port c) MAX_TARGETS = [] ->
     performed (log (res_state r)) = []
     ∧ blacklist_calls (log (res_state r)) = []
     ∧ res_code r = 404).
Proof.
  intros r.
  destruct (send_request_spec env c e curl path body doc0 hdr username
              headers_to_add now_ms uuid_str)
    as (_ & Hperf & Hbl & _ & _ & _ & Hcode & _).
  fold r in Hperf, Hbl, Hcode. split.
  - rewrite Hperf, Hcode.
    destruct (last _) as [[[i f] rep]|]; [|done].
    by destruct (reply_rc rep).
  - intros Hres. rewrite Hperf, Hbl, Hcode.
    unfold assemble_targets. rewrite Hres, sticky_first_nil. done.
Qed.

(** The zero-target case of C1, on a resolver that returns nothing. *)
Lemma send_request_http_code_witness :
  let r := send_request (scenario_env [] (fun _ => http_reply 200 [] []))
             (scenario_conn 8080 true) fresh_entry idle_handle
             "/p" "" "" None "" [] 5000 "uuid" in
  resolve (scenario_env [] (fun _ => http_reply 200 [] []))
          (_host (scenario_conn 8080 true)) (_port (scenario_conn 8080 true))
          MAX_TARGETS = []
  ∧ performed (log (res_state r)) = []
  ∧ blacklist_calls (log (res_state r)) = []
  ∧ res_code r = 404.
Proof.
  split; [reflexivity|].
  apply (send_request_http_code
           (scenario_env [] (fun _ => http_reply 200 [] []))
           (scenario_conn 8080 true) fresh_entry idle_handle
           "/p" "" "" None "" [] 5000 "uuid").
  reflexivity.
Defined.

(** C1 as stated fails: a call whose last transfer ends in [CURLE_AGAIN]
    returns 404, where the stated mapping gives 500 for a transport failure
    that is none of those it lists. *)
Lemma send_request_http_code_counterexample :
  let r := send_request
             (scenario_env [target_A] (fun _ => curl_failure CURLE_AGAIN))
             (scenario_conn 8080 false) fresh_entry idle_handle
             "/p" "" "" None "" [] 5000 "uuid" in
  (snd <$> last (performed (log (res_state r))))
    = Some (curl_failure CURLE_AGAIN)
  ∧ claimed_http_code (curl_failure CURLE_AGAIN) = 500
  ∧ res_code r = 404.
Proof. vm_compute. repeat split; reflexivity. Qed.

(** ** The stopping rule *)

(** C2, as amended.  After a transfer the executor goes on to the next
    target exactly when the transfer was not a success, no fatal HTTP error
    just occurred, the 503s plus timeouts or I/O errors so far are below
    two, there is no 504 so far, and a target is left.  It emits an abort
    event exactly when the call ends on a failed transfer that was fatal
    (tagged [Permanent]) or that spent the budget (tagged [Temporary]);
    when the call ends because the targets are exhausted with the budget
    unspent, or succeeds, or makes no transfer, it emits none. *)
Theorem send_request_stopping_rule env c e curl path body doc0 hdr username
    headers_to_add now_ms uuid_str :
  let r := send_request env c e curl path body doc0 hdr username
                        headers_to_add now_ms uuid_str in
  let outs := outcomes (performed (log (res_state r))) in
  (forall j o, outs !! j = Some o ->
     (is_Some (outs !! S j)
      <-> o <> ok ∧ is_fatal o = false
          ∧ budget_spent (take (S j) outs) = false
          ∧ (S j < length (res_targets r))%nat))
  ∧ abort_events (log (res_state r))
    = match last outs with
      | None => []
      | Some o =>
          if bool_decide (o = ok) then []
          else if is_fatal o then [Permanent]
          else if budget_spent outs then [Temporary]
          else []
      end.
Proof.
  intros r outs.
  destruct (send_request_spec env c e curl path body doc0 hdr username
              headers_to_add now_ms uuid_str)
    as (Htg & Hperf & _ & Hab & _).
  fold r in Htg, Hperf, Hab. subst outs. rewrite Hperf, Htg, Hab. split.
  - intros j o Hj.
    apply (expected_transfers_rule env (is_connection_expired now_ms e)
             _ 0 0 0 0 j o Hj).
  - reflexivity.
Qed.

(** C2 as stated fails: with two targets that both refuse the connection
    the call ends without success, the targets exhausted, and no abort
    event is emitted (the claim has a [Temporary] one). *)
Lemma send_request_stopping_rule_counterexample :
  let r := send_request
             (scenario_env [target_A; target_B]
                (fun _ => curl_failure CURLE_COULDNT_CONNECT))
             (scenario_conn 8080 false) fresh_entry idle_handle
             "/p" "" "" None "" [] 5000 "uuid" in
  outcomes (performed (log (res_state r))) = [connect_failure; connect_failure]
  ∧ length (performed (log (res_state r))) = length (res_targets r)
  ∧ rc (res_state r) <> CURLE_OK
  ∧ abort_events (log (res_state r)) = [].
Proof. vm_compute. repeat split; try reflexivity. discriminate. Qed.

(** ** Backpressure to the load monitor *)

(** C3.  With a load monitor attached, [incr_penalties] is called once when
    the call saw at least two 503 responses or at least one 504 response,
    and not at all otherwise; the call comes after every transfer of the
    call. *)
Theorem send_request_incr_penalties env c e curl path body doc0 hdr username
    headers_to_add now_ms uuid_str :
  _load_monitor c = true ->
  let r := send_request env c e curl path body doc0 hdr username
                        headers_to_add now_ms uuid_str in
  let outs := outcomes (performed (log (res_state r))) in
  penalty_calls (log (res_state r))
  = (if (2 <=? count_of http_503 outs) || (1 <=? count_of http_504 outs)
     then 1%nat else 0%nat)
  ∧ (exists l1 l2, log (res_state r) = l1 ++ l2
                   ∧ penalty_calls l1 = 0%nat ∧ performed l2 = []).
Proof.
  intros Hlm r outs.
  destruct (send_request_spec env c e curl path body doc0 hdr username
              headers_to_add now_ms uuid_str)
    as (_ & Hperf & _ & _ & Hpen & _ & _ & _ & _ & _ & Hord).
  fold r in Hperf, Hpen, Hord. subst outs. rewrite Hperf, Hpen, Hlm.
  by rewrite andb_true_r.
Qed.

(** Two 503 responses with a load monitor attached: one call. *)
Lemma send_request_incr_penalties_witness :
  let r := send_request
             (scenario_env [target_A; target_B]
                (fun _ => http_reply 503 [] ["busy"]))
             (scenario_conn 8080 true) fresh_entry idle_handle
             "/p" "" "" None "" [] 5000 "uuid" in
  _load_monitor (scenario_conn 8080 true) = true
  ∧ penalty_calls (log (res_state r)) = 1%nat
  ∧ (exists l1 l2, log (res_state r) = l1 ++ l2
                   ∧ penalty_calls l1 = 0%nat ∧ performed l2 = []).
Proof.
  split; [reflexivity|].
  apply (send_request_incr_penalties
           (scenario_env [target_A; target_B]
              (fun _ => http_reply 503 [] ["busy"]))
           (scenario_conn 8080 true) fresh_entry idle_handle
           "/p" "" "" None "" [] 5000 "uuid").
  reflexivity.
Defined.

(** ** The minimum-retry rule *)

(** C4, as amended.  When the resolver returns exactly one target the
    executor clones it, so the list it iterates over has length two; it
    makes one transfer, and a second one exactly when the first ended in a
    503, in a timeout or I/O error, or in a connect-level failure (not when
    it succeeded, was fatal or was a 504).  When the resolver returns at
    least one target, at least one transfer is made. *)
Theorem send_request_minimum_retry env c e curl path body doc0 hdr username
    headers_to_add now_ms uuid_str :
  let r := send_request env c e curl path body doc0 hdr username
                        headers_to_add now_ms uuid_str in
  let recycle_conn := is_connection_expired now_ms e in
  let att := performed (log (res_state r)) in
  (forall t, resolve env (_host c) (_port c) MAX_TARGETS = [t] ->
     let r0 := curl_easy_perform env 0 t recycle_conn in
     let r1 := curl_easy_perform env 1 t recycle_conn in
     res_targets r = [t; t]
     ∧ (att = [(t, recycle_conn, r0)]
        ∨ att = [(t, recycle_conn, r0); (t, recycle_conn, r1)])
     ∧ (length att = 2%nat
        <-> classify r0 = http_503 ∨ classify r0 = timeout_or_io
            ∨ classify r0 = connect_failure))
  ∧ (resolve env (_host c) (_port c) MAX_TARGETS <> [] ->
     (1 <= length att)%nat).
Proof.
  intros r recycle_conn att.
  destruct (send_request_spec env c e curl path body doc0 hdr username
              headers_to_add now_ms uuid_str)
    as (Htg & Hperf & _).
  fold r recycle_conn in Htg, Hperf. subst att. rewrite Hperf, Htg.
  split.
  - intros t Hres r0 r1. unfold assemble_targets.
    rewrite Hres, sticky_first_single. cbn [clone_single expected_transfers].
    fold r0 r1. split; [done|].
    unfold bump.
    assert (Htail : forall b : bool,
              (if b then [] else []) = @nil (AddrInfo * bool * Reply))
      by (by intros []).
    rewrite Htail.
    destruct (classify r0) eqn:Hc; repeat case_decide; try discriminate;
      try case_bool_decide; try done; cbn;
      (split; [by auto|]);
      (split; [try lia; try discriminate; by auto
              | try done; by intros [?|[?|?]]]).
  - intros Hne.
    pose proof (expected_transfers_nonempty env recycle_conn
                  (assemble_targets env c curl recycle_conn) 0 0 0 0) as Hn.
    destruct (expected_transfers _ _ _ _ _ _ _); cbn [length]; [|lia].
    exfalso. apply Hn; [|done]. unfold assemble_targets.
    by apply clone_single_nonempty, sticky_first_nonempty.
Qed.

(** One target that answers 503 twice: two transfers. *)
Lemma send_request_minimum_retry_witness :
  let env := scenario_env [target_A] (fun _ => http_reply 503 [] []) in
  let r := send_request env (scenario_conn 8080 false) fresh_entry idle_handle
             "/p" "" "" None "" [] 5000 "uuid" in
  resolve env "backend" 8080 MAX_TARGETS = [target_A]
  ∧ res_targets r = [target_A; target_A]
  ∧ (1 <= length (performed (log (res_state r))))%nat.
Proof.
  pose proof (send_request_minimum_retry
                (scenario_env [target_A] (fun _ => http_reply 503 [] []))
                (scenario_conn 8080 false) fresh_entry idle_handle
                "/p" "" "" None "" [] 5000 "uuid") as [H1 H2].
  split; [reflexivity|]. split.
  - exact (proj1 (H1 target_A eq_refl)).
  - apply H2. discriminate.
Defined.

(** C4 as stated fails: one healthy target is tried once, not twice. *)
Lemma send_request_minimum_retry_counterexample :
  let env := scenario_env [target_A] (fun _ => http_reply 200 [] ["ok"]) in
  let r := send_request env (scenario_conn 8080 false) fresh_entry idle_handle
             "/p" "" "" None "" [] 5000 "uuid" in
  resolve env "backend" 8080 MAX_TARGETS = [target_A]
  ∧ length (res_targets r) = 2%nat
  ∧ length (performed (log (res_state r))) = 1%nat
  ∧ res_code r = 200.
Proof. vm_compute. repeat split; reflexivity. Qed.

(** ** Blacklisting *)

Lemma transfer_failed_buckets rep :
  transfer_failed rep = true
  <-> classify rep = connect_failure ∨ classify rep = timeout_or_io.
Proof.
  unfold transfer_failed, classify.
  destruct (reply_rc rep); cbn;
    try (split; [by auto | done]);
    try (split; [done | by intros [?|?]]).
  destruct (reply_response_code rep <? 400), (reply_response_code rep =? 503),
    (reply_response_code rep =? 504);
    (split; [done | by intros [?|?]]).
Qed.

(** C5, as amended.  Every transfer of a call carries the same
    fresh-connection flag, the expiry test made at the start of the call.
    The targets handed to [blacklist] are, in order, the targets of the
    transfers made on a forced-new connection that failed in the transport
    with a code other than remote-file-not-found and remote-access-denied:
    the connect-level failures and also the timeouts and send and receive
    errors, but no transfer that returned an HTTP status. *)
Theorem send_request_blacklist env c e curl path body doc0 hdr username
    headers_to_add now_ms uuid_str :
  let r := send_request env c e curl path body doc0 hdr username
                        headers_to_add now_ms uuid_str in
  let att := performed (log (res_state r)) in
  blacklist_calls (log (res_state r))
  = (fun a => a.1.1)
      <$> filter (fun a => a.1.2 = true
                           ∧ (classify a.2 = connect_failure
                              ∨ classify a.2 = timeout_or_io)) att
  ∧ (forall a, a ∈ att -> a.1.2 = is_connection_expired now_ms e).
Proof.
  intros r att.
  destruct (send_request_spec env c e curl path body doc0 hdr username
              headers_to_add now_ms uuid_str)
    as (_ & Hperf & Hbl & _).
  fold r in Hperf, Hbl. subst att. rewrite Hperf, Hbl. split.
  - unfold blacklisted_of. f_equal. apply list_filter_iff.
    intros [[i f] rep]. cbn [fst snd].
    rewrite andb_true_iff, transfer_failed_buckets. done.
  - intros [[i f] rep] Hin. apply list_elem_of_lookup in Hin as [j Hj].
    apply expected_transfers_lookup in Hj. apply Hj.
Qed.

(** C5 as stated fails: on a forced-new connection a transfer that times
    out, which is in the [timeout_or_io] bucket and not a connect-level
    failure, gets its target blacklisted. *)
Lemma send_request_blacklist_counterexample :
  let answer i :=
    if decide (i = target_A) then curl_failure CURLE_OPERATION_TIMEDOUT
    else http_reply 200 [] ["ok"] in
  let r := send_request (scenario_env [target_A; target_B] answer)
             (scenario_conn 8080 false) fresh_entry idle_handle
             "/p" "" "" None "" [] 5000 "uuid" in
  performed (log (res_state r))
    = [(target_A, true, curl_failure CURLE_OPERATION_TIMEDOUT);
       (target_B, true, http_reply 200 [] ["ok"])]
  ∧ classify (curl_failure CURLE_OPERATION_TIMEDOUT) = timeout_or_io
  ∧ blacklist_calls (log (res_state r)) = [target_A].
Proof. vm_compute. repeat split; reflexivity. Qed.

(** ** The sticky-first rule *)

(** The sticky-first step compares whole targets.  With the connection
    expired, or the primary IP not available, it changes nothing.
    Otherwise, with [ai] the target made of the parsed primary IP, the
    connection's port (80 when that is 0) and TCP: if [ai] is in the list
    every occurrence of it is erased and [ai] is put at position 0; if it is
    not, the list is unchanged. *)
Lemma sticky_first_whole_target env c curl recycle_conn targets :
  let sticky := sticky_first env c curl recycle_conn targets in
  (recycle_conn = true -> sticky = targets)
  ∧ (CURLINFO_PRIMARY_IP curl = None -> sticky = targets)
  ∧ (forall primary_ip,
       recycle_conn = false -> CURLINFO_PRIMARY_IP curl = Some primary_ip ->
       let ai := mkAddrInfo (parse_ip_target env primary_ip)
                            (if _port c =? 0 then 80 else _port c)
                            IPPROTO_TCP in
       (ai ∈ targets -> sticky = ai :: filter (fun t => t <> ai) targets)
       ∧ (ai ∉ targets -> sticky = targets)
       ∧ (forall l1 l2, targets = l1 ++ ai :: l2 -> ai ∉ l1 -> ai ∉ l2 ->
            sticky = ai :: l1 ++ l2)).
Proof.
  intros sticky. subst sticky. unfold sticky_first.
  split; [by intros ->|]. split.
  { intros ->. by destruct recycle_conn. }
  intros primary_ip -> ->. cbn zeta.
  set (ai := mkAddrInfo (parse_ip_target env primary_ip)
                        (if _port c =? 0 then 80 else _port c) IPPROTO_TCP).
  assert (Hin : ai ∈ targets ->
            (length (filter (fun t => t <> ai) targets) <? length targets)%nat
            = true).
  { intros Hin. apply Nat.ltb_lt.
    induction targets as [|t ts IH]; [by apply elem_of_nil in Hin|].
    rewrite filter_cons. cbn [length].
    pose proof (length_filter (fun t => t <> ai) ts).
    destruct (decide (t <> ai)) as [Hne|Heq]; cbn [length]; [|lia].
    apply elem_of_cons in Hin as [->|Hin]; [done|].
    specialize (IH Hin). lia. }
  assert (Hout : ai ∉ targets -> filter (fun t => t <> ai) targets = targets).
  { intros Hnin. induction targets as [|t ts IH]; [done|].
    apply not_elem_of_cons in Hnin as [Hne Hnin].
    rewrite filter_cons, decide_True by done. by rewrite IH. }
  split; [|split].
  - intros H. by rewrite Hin.
  - intros H. rewrite Hout by done. by rewrite Nat.ltb_irrefl.
  - intros l1 l2 Heq Hn1 Hn2. rewrite Hin by (rewrite Heq; set_solver).
    f_equal. rewrite Heq, filter_app, filter_cons.
    rewrite decide_False by (intros H; by apply H).
    f_equal; clear -Hn1 Hn2.
    + induction l1 as [|t ts IH]; [done|].
      apply not_elem_of_cons in Hn1 as [Hne Hn1].
      rewrite filter_cons, decide_True by done. by rewrite IH.
    + induction l2 as [|t ts IH]; [done|].
      apply not_elem_of_cons in Hn2 as [Hne Hn2].
      rewrite filter_cons, decide_True by done. by rewrite IH.
Qed.

(** C6.  The resolver is asked for the connection's port and answers with
    TCP targets on that port (on 80 when the port is 0), the port and
    transport the executor itself gives the target it looks for.  For such
    a list: the list the loop iterates over is the resolver's list after the
    sticky-first step and the cloning of a single target; with the
    connection expired the sticky-first step changes nothing; with the
    connection not expired, if the address of a target [t] of the list is
    the connection's peer IP, [t] is removed from the list and inserted at
    position 0 (when [t] occurs once, it moves to the front and the others
    keep their order), and if no target has that address, or the peer IP is
    not available, the list is unchanged. *)
Theorem send_request_sticky_first env c e curl path body doc0 hdr username
    headers_to_add now_ms uuid_str :
  let targets := resolve env (_host c) (_port c) MAX_TARGETS in
  let recycle_conn := is_connection_expired now_ms e in
  let sticky := sticky_first env c curl recycle_conn targets in
  (forall t, t ∈ targets ->
     port t = (if _port c =? 0 then 80 else _port c)
     ∧ transport t = IPPROTO_TCP) ->
  res_targets (send_request env c e curl path body doc0 hdr username
                 headers_to_add now_ms uuid_str)
  = clone_single sticky
  ∧ (recycle_conn = true -> sticky = targets)
  ∧ (recycle_conn = false ->
     match CURLINFO_PRIMARY_IP curl with
     | None => sticky = targets
     | Some primary_ip =>
         let peer := parse_ip_target env primary_ip in
         (forall t, t ∈ targets -> address t = peer ->
            sticky = t :: filter (fun u => u <> t) targets
            ∧ forall l1 l2, targets = l1 ++ t :: l2 -> t ∉ l1 -> t ∉ l2 ->
                sticky = t :: l1 ++ l2)
         ∧ ((forall t, t ∈ targets -> address t <> peer) -> sticky = targets)
     end).
Proof.
  intros targets recycle_conn sticky Hports.
  split.
  { by destruct (send_request_spec env c e curl path body doc0 hdr username
                   headers_to_add now_ms uuid_str) as (-> & _). }
  destruct (sticky_first_whole_target env c curl recycle_conn targets)
    as (Hexp & Hnone & Hsome).
  fold sticky in Hexp, Hnone, Hsome.
  split; [exact Hexp|].
  intros Hwarm.
  destruct (CURLINFO_PRIMARY_IP curl) as [primary_ip|] eqn:Hip;
    [|by apply Hnone].
  specialize (Hsome primary_ip Hwarm eq_refl). cbn zeta in Hsome.
  destruct Hsome as (Hin & Hout & Honce).
  cbn zeta. split.
  - intros t Ht Haddr.
    destruct (Hports t Ht) as [Hp Htr].
    assert (Heq : t = mkAddrInfo (parse_ip_target env primary_ip)
                        (if _port c =? 0 then 80 else _port c) IPPROTO_TCP).
    { destruct t as [a p tr]. cbn [address port transport] in *.
      by rewrite Haddr, Hp, Htr. }
    rewrite <- Heq in Hin, Honce. split; [by apply Hin|exact Honce].
  - intros Hno. apply Hout. intros Hai.
    by apply (Hno _ Hai).
Qed.

(** The sticky-reuse scenario: the warm connection to 10.0.0.2 moves that
    target to the front. *)
Lemma send_request_sticky_first_witness :
  let env := scenario_env [target_A; target_B; target_C]
               (fun _ => http_reply 200 [] ["ok"]) in
  let c := scenario_conn 8080 false in
  let r := send_request env c (warm_entry "10.0.0.2") (warm_handle "10.0.0.2")
             "/p" "" "" None "" [] 5000 "uuid" in
  (forall t, t ∈ [target_A; target_B; target_C] ->
     port t = 8080 ∧ transport t = IPPROTO_TCP)
  ∧ is_connection_expired 5000 (warm_entry "10.0.0.2") = false
  ∧ address target_B = parse_ip_target env "10.0.0.2"
  ∧ res_targets r = clone_single (sticky_first env c (warm_handle "10.0.0.2")
                                    false [target_A; target_B; target_C])
  ∧ sticky_first env c (warm_handle "10.0.0.2") false
      [target_A; target_B; target_C]
    = [target_B; target_A; target_C].
Proof.
  assert (Hports : forall t, t ∈ [target_A; target_B; target_C] ->
            port t = 8080 ∧ transport t = IPPROTO_TCP).
  { intros t Ht. repeat (apply elem_of_cons in Ht as [->|Ht]); [done..|].
    by apply elem_of_nil in Ht. }
  pose proof (send_request_sticky_first
                (scenario_env [target_A; target_B; target_C]
                   (fun _ => http_reply 200 [] ["ok"]))
                (scenario_conn 8080 false) (warm_entry "10.0.0.2")
                (warm_handle "10.0.0.2") "/p" "" "" None "" [] 5000 "uuid"
                Hports)
    as (Hres & _ & H).
  specialize (H eq_refl) as (H & _).
  assert (Hin : target_B ∈ [target_A; target_B; target_C])
    by (apply elem_of_cons; right; apply elem_of_cons; by left).
  destruct (H target_B Hin eq_refl) as (_ & Honce).
  split; [exact Hports|]. split; [reflexivity|]. split; [reflexivity|].
  split; [exact Hres|].
  apply (Honce [target_A] [target_C] eq_refl).
  - intros Hx. apply elem_of_cons in Hx as [Hx|Hx];
      [discriminate Hx|by apply elem_of_nil in Hx].
  - intros Hx. apply elem_of_cons in Hx as [Hx|Hx];
      [discriminate Hx|by apply elem_of_nil in Hx].
Defined.

(** The hypothesis on the resolver's list is used: were a target of
    another port in the list, the step would not find it.  Here the
    connection has port 0, so port 80 is looked for, and the list holds the
    peer's address on port 8080. *)
Example sticky_first_other_port :
  let env := scenario_env [target_A; target_B]
               (fun _ => http_reply 200 [] ["ok"]) in
  sticky_first env (scenario_conn 0 false) (warm_handle "10.0.0.2") false
    [target_A; target_B]
  = [target_A; target_B].
Proof. vm_compute. reflexivity. Qed.

(** ** The remote IP of the pool entry *)

(** What the pool entry is left with on return: the empty string when the
    last transfer failed in the transport or no transfer was made, and
    otherwise what the read of the expired buffer yields, which is the
    printed address of the last target only where those bytes survived. *)
Lemma send_request_remote_ip_stored env c e curl path body doc0 hdr username
    headers_to_add now_ms uuid_str :
  let r := send_request env c e curl path body doc0 hdr username
                        headers_to_add now_ms uuid_str in
  let stored := _remote_ip (entry (res_state r)) in
  match last (performed (log (res_state r))) with
  | None => stored = ""
  | Some (i, _, rep) =>
      rc (res_state r) = reply_rc rep
      ∧ (reply_rc rep = CURLE_OK ->
         stored = read_expired_buf env (inet_ntop env (address i)))
      ∧ (reply_rc rep <> CURLE_OK -> stored = "")
  end.
Proof.
  intros r stored.
  destruct (send_request_spec env c e curl path body doc0 hdr username
              headers_to_add now_ms uuid_str)
    as (_ & Hperf & _ & _ & _ & Hrc & _ & Hip & _).
  fold r in Hperf, Hrc, Hip. subst stored. rewrite Hperf, Hip, Hrc.
  destruct (last _) as [[[i f] rep]|]; [|done].
  case_bool_decide as Hok; repeat split; done.
Qed.

(** C7.  The code misses the claim.  A GET on a fresh connection, one
    healthy target 10.0.0.1, the transfer answers 200: the call succeeds and
    the last target tried prints as 10.0.0.1, but the pool entry is left
    with the bytes found in the expired buffer, here not the printed
    address, and the statistics table counts a connection to that value. *)
Theorem send_request_remote_ip_dangling :
  let env := scenario_env_reading (fun _ => "@") [target_A]
               (fun _ => http_reply 200 [] ["ok"]) in
  let c := scenario_conn 8080 false in
  let r := send_request env c fresh_entry idle_handle
             "/p" "" "" None "" [] 5000 "uuid" in
  res_code r = 200
  ∧ rc (res_state r) = CURLE_OK
  ∧ last (performed (log (res_state r)))
    = Some (target_A, true, http_reply 200 [] ["ok"])
  ∧ inet_ntop env (address target_A) = "10.0.0.1"
  ∧ _remote_ip (entry (res_state r)) = "@"
  ∧ _remote_ip (entry (res_state r)) <> "10.0.0.1"
  ∧ _stat_table (res_conn r) = Some {["@" := 1]}.
Proof.
  vm_compute. repeat split; try reflexivity. discriminate.
Qed.

(** ** The recycle deadline *)

Lemma next_interval_ms_range e : 0 <= next_interval_ms e < ULONG_MODULUS.
Proof. unfold next_interval_ms, ulong. by apply Z.mod_pos_bound. Qed.

Lemma update_deadline_step now_ms e :
  0 <= _deadline_ms e -> 0 <= now_ms ->
  _deadline_ms e + next_interval_ms e < ULONG_MODULUS ->
  now_ms + next_interval_ms e < ULONG_MODULUS ->
  _deadline_ms (update_deadline now_ms e)
  = (if (_deadline_ms e =? 0)
        || (_deadline_ms e + next_interval_ms e <? now_ms)
     then now_ms + next_interval_ms e
     else _deadline_ms e + next_interval_ms e)
  ∧ _deadline_ms e <= _deadline_ms (update_deadline now_ms e).
Proof.
  intros Hd Hn Hdi Hni. pose proof (next_interval_ms_range e) as Hi.
  unfold update_deadline. cbn [_deadline_ms]. unfold ulong.
  rewrite !Z.mod_small by lia.
  destruct (Z.eqb_spec (_deadline_ms e) 0) as [H0|H0]; cbn [orb].
  - split; [done|]. lia.
  - destruct (Z.ltb_spec (_deadline_ms e + next_interval_ms e) now_ms);
      (split; [done|]); lia.
Qed.

Lemma deadlines_after_bounded nows : forall e,
  no_wrap nows e ->
  Forall (Z.le (_deadline_ms e)) (deadlines_after nows e)
  ∧ StronglySorted Z.le (deadlines_after nows e).
Proof.
  induction nows as [|now_ms rest IH]; intros e Hnw; cbn [deadlines_after].
  - split; constructor.
  - destruct Hnw as (Hd & Hn & Hdi & Hni & Hrest).
    destruct (update_deadline_step now_ms e Hd Hn Hdi Hni) as [_ Hle].
    destruct (IH _ Hrest) as [Hall Hsorted]. split.
    + constructor; [done|].
      eapply Forall_impl; [exact Hall|]. intros d Hd'.
      exact (Z.le_trans _ _ _ Hle Hd').
    + by constructor.
Qed.

(** C8, as amended.  As long as no addition leaves the range of
    [unsigned long] (the deadline plus the interval and the clock reading
    plus the interval stay below 2^64), a sequence of [update_deadline]
    calls never decreases the deadline; each call sets it to the clock
    reading plus the interval when the deadline is 0 or the deadline plus
    the interval is before the clock reading, and to the deadline plus the
    interval otherwise. *)
Theorem update_deadline_non_decreasing nows e :
  no_wrap nows e ->
  StronglySorted Z.le (_deadline_ms e :: deadlines_after nows e)
  ∧ (forall now_ms rest, nows = now_ms :: rest ->
       _deadline_ms (update_deadline now_ms e)
       = (if (_deadline_ms e =? 0)
             || (_deadline_ms e + next_interval_ms e <? now_ms)
          then now_ms + next_interval_ms e
          else _deadline_ms e + next_interval_ms e)
       ∧ _deadline_ms e <= _deadline_ms (update_deadline now_ms e)).
Proof.
  intros Hnw. split.
  - destruct (deadlines_after_bounded nows e Hnw). by constructor.
  - intros now_ms rest ->. destruct Hnw as (Hd & Hn & Hdi & Hni & _).
    by apply update_deadline_step.
Qed.

(** Three calls on a new pool entry whose sampler returns one minute. *)
Lemma update_deadline_non_decreasing_witness :
  no_wrap [5000; 70000; 200000] fresh_entry
  ∧ deadlines_after [5000; 70000; 200000] fresh_entry
    = [65000; 125000; 260000]
  ∧ StronglySorted Z.le
      (_deadline_ms fresh_entry
         :: deadlines_after [5000; 70000; 200000] fresh_entry).
Proof.
  assert (Hnw : no_wrap [5000; 70000; 200000] fresh_entry)
    by (repeat split; by vm_compute).
  split; [exact Hnw|]. split; [reflexivity|].
  exact (proj1 (update_deadline_non_decreasing _ _ Hnw)).
Defined.

(** C8 as stated fails: with a non-negative interval close to the top of
    the [unsigned long] range both additions wrap around, and the deadline
    goes down from 4096 to 2952. *)
Lemma update_deadline_non_decreasing_counterexample :
  let e := mkPoolEntry 4096 (fun _ => 2 ^ 64 - 2048) 1 "" [] in
  next_interval_ms e = 2 ^ 64 - 2048
  ∧ 0 <= next_interval_ms e
  ∧ _deadline_ms (update_deadline 5000 e) = 2952
  ∧ _deadline_ms (update_deadline 5000 e) < _deadline_ms e.
Proof. vm_compute. repeat split; try reflexivity. discriminate. Qed.

(** ** The remote-IP statistic *)

Lemma update_snmp_ip_counts_new old value t :
  value <> old ->
  stat_count value (update_snmp_ip_counts old value t)
  = stat_count value t + (if decide (value = "") then 0 else 1).
Proof.
  intros Hne. unfold update_snmp_ip_counts.
  set (t1 := if decide (old = "") then t else _).
  assert (H1 : stat_count value t1 = stat_count value t).
  { subst t1. destruct (decide (old = "")); [done|].
    unfold stat_decrement, stat_remove, stat_count.
    destruct (_ =? 0).
    - by rewrite lookup_delete_ne, lookup_insert_ne.
    - by rewrite lookup_insert_ne. }
  destruct (decide (value = "")); [lia|].
  unfold stat_increment. unfold stat_count at 1.
  rewrite lookup_insert_eq. cbn. lia.
Qed.

(** C9.  [set_remote_ip] is idempotent: a second call with the same value
    leaves the connection (its statistics table and its lock count) and the
    pool entry as the first call left them, and a call with the value
    already stored changes nothing at all.  Over the two calls the counter
    of the value goes up by one when a table is attached and the value is
    non-empty and was not the stored one, and does not move otherwise. *)
Theorem set_remote_ip_idempotent value c e :
  let s1 := set_remote_ip value (c, e) in
  let s2 := set_remote_ip value s1 in
  s2 = s1
  ∧ _lock_count s2.1 = _lock_count s1.1
  ∧ (value = _remote_ip e -> s1 = (c, e))
  ∧ stat_of value s2.1 - stat_of value c
    = (if bool_decide (_stat_table c <> None ∧ value <> ""
                       ∧ value <> _remote_ip e)
       then 1 else 0).
Proof.
  intros s1 s2.
  assert (H21 : s2 = s1).
  { subst s2. pose proof (set_remote_ip_stored value (c, e)) as Hst.
    fold s1 in Hst. destruct s1 as [c1 e1]. cbn [snd] in Hst.
    unfold set_remote_ip. by rewrite decide_True. }
  split; [done|]. split; [by rewrite H21|]. rewrite H21. subst s1.
  unfold set_remote_ip.
  destruct (decide (value = _remote_ip e)) as [Heq|Hne].
  - split; [done|]. cbn [fst]. rewrite bool_decide_eq_false_2; [lia|].
    by intros (_ & _ & ?).
  - split; [done|]. cbn [fst]. unfold stat_of.
    destruct (_stat_table c) as [t|] eqn:Ht; cbn [_stat_table with_stat_table].
    + rewrite update_snmp_ip_counts_new by done.
      destruct (decide (value = "")).
      * rewrite bool_decide_eq_false_2; [lia|]. by intros (_ & ? & _).
      * rewrite bool_decide_eq_true_2; [lia|done].
    + rewrite Ht. rewrite bool_decide_eq_false_2; [lia|]. by intros (? & _).
Qed.

(** Setting 10.0.0.1 twice on a new pool entry counts it once. *)
Lemma set_remote_ip_idempotent_witness :
  let c := scenario_conn 8080 false in
  let s2 := set_remote_ip "10.0.0.1"
              (set_remote_ip "10.0.0.1" (c, fresh_entry)) in
  "10.0.0.1" = _remote_ip s2.2
  ∧ set_remote_ip "10.0.0.1" s2 = s2
  ∧ stat_of "10.0.0.1" s2.1 - stat_of "10.0.0.1" c = 1.
Proof.
  pose proof (set_remote_ip_idempotent "10.0.0.1" (scenario_conn 8080 false)
                fresh_entry) as (H1 & _ & _ & H4).
  pose proof (set_remote_ip_idempotent "10.0.0.1"
                (set_remote_ip "10.0.0.1"
                   (scenario_conn 8080 false, fresh_entry)).1
                (set_remote_ip "10.0.0.1"
                   (scenario_conn 8080 false, fresh_entry)).2)
    as (_ & _ & H3 & _).
  cbn zeta in *. rewrite H1.
  split; [reflexivity|]. split; [|rewrite H1 in H4; exact H4].
  rewrite <- surjective_pairing in H3. apply H3. reflexivity.
Defined.

(** ** The response headers and the response body *)

Lemma fold_headers_app l1 l2 m :
  fold_headers (l1 ++ l2) m = fold_headers l2 (fold_headers l1 m).
Proof. apply foldl_app. Qed.

Lemma fold_headers_frame lines : forall m k,
  (forall line, line ∈ lines -> header_key line <> k) ->
  fold_headers lines m !! k = m !! k.
Proof.
  induction lines as [|l ls IH]; intros m k Hk; [done|].
  cbn. change (fold_headers ls (write_headers l m) !! k = m !! k).
  rewrite IH by (intros line Hin; apply Hk; by apply elem_of_cons; right).
  unfold write_headers. apply lookup_insert_ne, Hk, elem_of_cons. by left.
Qed.

Lemma fold_headers_key lines : forall m line,
  line ∈ lines -> is_Some (fold_headers lines m !! header_key line).
Proof.
  induction lines as [|l ls IH]; intros m line Hin;
    [by apply elem_of_nil in Hin|].
  change (is_Some (fold_headers ls (write_headers l m) !! header_key line)).
  destruct (decide (line ∈ ls)) as [Hls|Hls]; [by apply IH|].
  apply elem_of_cons in Hin as [->|Hin]; [|done].
  destruct (decide (Exists (fun l' => header_key l' = header_key l) ls))
    as [Hex|Hnex].
  - apply Exists_exists in Hex as (l' & Hl' & <-). by apply IH.
  - rewrite fold_headers_frame.
    + unfold write_headers. rewrite lookup_insert_eq. by eexists.
    + intros l' Hl' Heq. apply Hnex, Exists_exists. eauto.
Qed.

Lemma header_lines_app att1 att2 :
  header_lines (att1 ++ att2) = header_lines att1 ++ header_lines att2.
Proof. unfold header_lines. by rewrite fmap_app, concat_app. Qed.

(** C10.  For [send_put] and [send_post] the response-header map is not
    cleared between the transfers of a call: on return it is the caller's
    map with every header line of every transfer written into it in order,
    so a key received in an earlier transfer is still in it, with the value
    that transfer left unless a later transfer delivered the same key.  The
    response body is cleared before every transfer and holds the chunks of
    the last transfer only. *)
Theorem response_headers_accumulate env c e curl path headers0 response0
    body extra_req_headers username now_ms uuid_str r :
  r = send_put env c e curl path headers0 response0 body extra_req_headers
               username now_ms uuid_str
  ∨ r = send_post env c e curl path headers0 response0 body username
                  now_ms uuid_str ->
  let att := performed (log (res_state r)) in
  let final := fold_headers (header_lines att) headers0 in
  headers (res_state r) = Some final
  ∧ doc (res_state r)
    = match last att with
      | None => response0
      | Some (_, _, rep) =>
          foldl (fun d chunk => string_store chunk d) "" (reply_body rep)
      end
  ∧ (forall att1 att2 line,
       att = att1 ++ att2 -> line ∈ header_lines att1 ->
       is_Some (final !! header_key line)
       ∧ ((forall line', line' ∈ header_lines att2 ->
             header_key line' <> header_key line) ->
          final !! header_key line
          = fold_headers (header_lines att1) headers0 !! header_key line)).
Proof.
  intros Hr att final.
  assert (Hspec : headers (res_state r) = Some final
                  ∧ doc (res_state r)
                    = match last att with
                      | None => response0
                      | Some (_, _, rep) =>
                          foldl (fun d chunk => string_store chunk d) ""
                                (reply_body rep)
                      end).
  { subst final att. destruct Hr as [-> | ->]; unfold send_put, send_post.
    - destruct (send_request_spec env c e curl path body response0
                  (Some headers0) "" extra_req_headers now_ms uuid_str)
        as (_ & Hperf & _ & _ & _ & _ & _ & _ & Hdoc & Hhdr & _).
      rewrite Hperf, Hdoc, Hhdr. done.
    - destruct (send_request_spec env c e curl path body response0
                  (Some headers0) username [] now_ms uuid_str)
        as (_ & Hperf & _ & _ & _ & _ & _ & _ & Hdoc & Hhdr & _).
      rewrite Hperf, Hdoc, Hhdr. done. }
  destruct Hspec as [Hh Hd]. split; [done|]. split; [done|].
  intros att1 att2 line Hatt Hin. subst final. rewrite Hatt.
  rewrite header_lines_app. split.
  - apply fold_headers_key, elem_of_app. by left.
  - intros Hlater. rewrite fold_headers_app. by apply fold_headers_frame.
Qed.

(** A PUT that fails over: the first target answers 503 with a Retry-After
    header, the second answers 200 with an ETag header.  Both keys are in
    the returned map; the body is that of the second transfer. *)
Lemma response_headers_accumulate_witness :
  let answer i :=
    if decide (i = target_A) then http_reply 503 ["Retry-After: 5"] ["busy"]
    else http_reply 200 ["ETag: x"] ["o"; "k"] in
  let r := send_put (scenario_env [target_A; target_B] answer)
             (scenario_conn 8080 false) fresh_entry idle_handle
             "/p" ∅ "old" "{}" [] "" 5000 "uuid" in
  (fun m => (m !! "retry-after", m !! "etag")) <$> headers (res_state r)
    = Some (Some "5", Some "x")
  ∧ doc (res_state r) = "ok".
Proof.
  set (answer := fun i =>
    if decide (i = target_A) then http_reply 503 ["Retry-After: 5"] ["busy"]
    else http_reply 200 ["ETag: x"] ["o"; "k"]).
  cbn zeta.
  pose proof (response_headers_accumulate
                (scenario_env [target_A; target_B] answer)
                (scenario_conn 8080 false) fresh_entry idle_handle
                "/p" ∅ "old" "{}" [] "" 5000 "uuid" _ (or_introl eq_refl))
    as (Hh & Hd & _).
  rewrite Hh, Hd. split; vm_compute; reflexivity.
Defined.

(** ** The end-to-end scenarios of the specification

    The remote IP shown is the one the pool entry holds in [scenario_env],
    where the expired buffer still reads as printed. *)

Example scenario_single_healthy_target :
  let r := get_on (scenario_env [target_A] (fun _ => http_reply 200 [] ["ok"]))
                  fresh_entry idle_handle in
  observe r = (200, [(target_A, true)], [], [], 0%nat, "10.0.0.1", 65000)
  ∧ doc (res_state r) = "ok".
Proof. vm_compute. split; reflexivity. Qed.

Example scenario_failover_on_503 :
  observe (get_on (scenario_env [target_A; target_B]
                     (fun i => if decide (i = target_A)
                               then http_reply 503 [] []
                               else http_reply 200 [] ["ok"]))
                  fresh_entry idle_handle)
  = (200, [(target_A, true); (target_B, true)], [], [], 0%nat, "10.0.0.2",
     65000).
Proof. vm_compute. reflexivity. Qed.

Example scenario_double_503 :
  observe (get_on (scenario_env [target_A; target_B]
                     (fun _ => http_reply 503 [] []))
                  fresh_entry idle_handle)
  = (503, [(target_A, true); (target_B, true)], [], [Temporary], 1%nat,
     "10.0.0.2", 0).
Proof. vm_compute. reflexivity. Qed.

Example scenario_single_504 :
  observe (get_on (scenario_env [target_A; target_B; target_C]
                     (fun _ => http_reply 504 [] []))
                  fresh_entry idle_handle)
  = (504, [(target_A, true)], [], [Temporary], 1%nat, "10.0.0.1", 0).
Proof. vm_compute. reflexivity. Qed.

Example scenario_connect_failure_on_fresh_connection :
  observe (get_on (scenario_env [target_A; target_B]
                     (fun i => if decide (i = target_A)
                               then curl_failure CURLE_COULDNT_CONNECT
                               else http_reply 200 [] ["ok"]))
                  fresh_entry idle_handle)
  = (200, [(target_A, true); (target_B, true)], [target_A], [], 0%nat,
     "10.0.0.2", 65000).
Proof. vm_compute. reflexivity. Qed.

Example scenario_sticky_reuse :
  observe (get_on (scenario_env [target_A; target_B; target_C]
                     (fun _ => http_reply 200 [] ["ok"]))
                  (warm_entry "10.0.0.2") (warm_handle "10.0.0.2"))
  = (200, [(target_B, false)], [], [], 0%nat, "10.0.0.2", 100000).
Proof. vm_compute. reflexivity. Qed.

Example write_headers_content_type :
  write_headers "Content-Type: text/plain" ∅ !! "content-type"
  = Some "text/plain".
Proof. vm_compute. reflexivity. Qed.

Example write_headers_no_colon :
  write_headers "HTTP/1.1 200 OK" ∅ !! "http/1.1200ok" = Some "".
Proof. vm_compute. reflexivity. Qed.

(** * Further properties of the code *)

(** ** Strings *)

Lemma string_app_cons c (s t : string) : String c s +:+ t = String c (s +:+ t).
Proof. reflexivity. Qed.

Lemma string_app_nil_l (s : string) : "" +:+ s = s.
Proof. reflexivity. Qed.

Lemma string_app_assoc (s1 s2 s3 : string) :
  (s1 +:+ s2) +:+ s3 = s1 +:+ (s2 +:+ s3).
Proof.
  induction s1 as [|c s1 IH]; [reflexivity|].
  rewrite !string_app_cons. by f_equal.
Qed.

Lemma string_app_nil_r (s : string) : s +:+ "" = s.
Proof.
  induction s as [|c s IH]; [reflexivity|]. rewrite string_app_cons.
  by f_equal.
Qed.

Lemma string_length_app (s t : string) :
  String.length (s +:+ t) = (String.length s + String.length t)%nat.
Proof.
  induction s as [|c s IH]; [reflexivity|]. rewrite string_app_cons.
  cbn [String.length]. by rewrite IH.
Qed.

Lemma substr_to_app (h x : string) : substr_to (String.length h) (h +:+ x) = h.
Proof.
  induction h as [|c h IH]; [by destruct x|]. rewrite string_app_cons.
  cbn [String.length substr_to]. by f_equal.
Qed.

Lemma substr_from_app (h x : string) :
  substr_from (String.length h) (h +:+ x) = x.
Proof.
  induction h as [|c h IH]; [by destruct x|]. rewrite string_app_cons.
  exact IH.
Qed.

Lemma find_colon_app (h x : string) :
  find_colon h = None ->
  find_colon (h +:+ String ":" x) = Some (String.length h).
Proof.
  induction h as [|c h IH]; [done|]. rewrite string_app_cons.
  cbn [find_colon String.length].
  destruct (Ascii.eqb c ":"); [done|].
  destruct (find_colon h); [done|]. intros _. by rewrite IH.
Qed.

Lemma find_last_colon_app (h p : string) :
  find_last_colon p = None ->
  find_last_colon (h +:+ String ":" p) = Some (String.length h).
Proof.
  intros Hp. induction h as [|c h IH].
  - rewrite string_app_nil_l. cbn. by rewrite Hp.
  - rewrite string_app_cons. cbn [find_last_colon String.length].
    by rewrite IH.
Qed.

Lemma all_chars_erase_if p q s :
  all_chars q s = true -> all_chars q (erase_if p s) = true.
Proof.
  induction s as [|c s IH]; [done|]. cbn. intros [Hc Hs]%andb_true_iff.
  destruct (p c); cbn; [by apply IH|]. by rewrite Hc, IH.
Qed.

Lemma all_chars_erased p s : all_chars (fun c => negb (p c)) (erase_if p s) = true.
Proof.
  induction s as [|c s IH]; [done|]. cbn.
  destruct (p c) eqn:Hc; cbn; [done|]. by rewrite Hc, IH.
Qed.

Lemma all_chars_and p q s :
  all_chars p s = true -> all_chars q s = true ->
  all_chars (fun c => p c && q c) s = true.
Proof.
  induction s as [|c s IH]; [done|]. cbn.
  intros [-> Hp]%andb_true_iff [-> Hq]%andb_true_iff. by rewrite IH.
Qed.

Lemma tolower_not_upper c : isupper (tolower c) = false.
Proof. destruct c as [[] [] [] [] [] [] [] []]; reflexivity. Qed.

Lemma all_chars_tolower s :
  all_chars (fun c => negb (isupper c)) (transform tolower s) = true.
Proof.
  induction s as [|c s IH]; [done|]. cbn. by rewrite tolower_not_upper, IH.
Qed.

(** ** The response-header callback *)

(** X1.  The key [write_headers] stores has no whitespace and no upper-case
    letter, and the value it stores has no whitespace (blanks inside a
    value are removed as well), whatever the header line. *)
Theorem write_headers_normalised headerString :
  all_chars (fun c => negb (isspace c) && negb (isupper c))
            (header_key headerString) = true
  ∧ all_chars (fun c => negb (isspace c)) (header_val headerString) = true.
Proof.
  unfold header_key, header_val. split.
  - apply all_chars_and; [apply all_chars_erased|].
    apply all_chars_erase_if, all_chars_tolower.
  - apply all_chars_erased.
Qed.

(** X2.  A header line is split at its first colon: for a name without a
    colon, [name:rest] is stored under the name lower-cased and stripped of
    whitespace, with [rest] stripped of whitespace as its value, later
    colons staying in the value; a line without a colon is stored whole as
    a key with the empty value. *)
Theorem write_headers_split name rest headers :
  find_colon name = None ->
  write_headers (name +:+ ":" +:+ rest) headers
  = <[erase_if isspace (transform tolower name) := erase_if isspace rest]>
      headers
  ∧ write_headers name headers
    = <[erase_if isspace (transform tolower name) := ""]> headers.
Proof.
  intros Hn. unfold write_headers, header_key, header_val. split.
  - change (name +:+ ":" +:+ rest) with (name +:+ String ":" rest).
    rewrite find_colon_app by done.
    rewrite substr_to_app.
    replace (String.length name + 1)%nat with (String.length (name +:+ ":"))
      by (by rewrite string_length_app).
    change (name +:+ String ":" rest) with (name +:+ (":" +:+ rest)).
    rewrite <- string_app_assoc, substr_from_app. done.
  - by rewrite Hn.
Qed.

Lemma write_headers_split_witness :
  find_colon "Location" = None
  ∧ write_headers "Location: http://10.0.0.1:8080/ x" ∅
    = {[ "location" := "http://10.0.0.1:8080/x" ]}.
Proof.
  split; [reflexivity|].
  exact (proj1 (write_headers_split "Location" " http://10.0.0.1:8080/ x" ∅
                  eq_refl)).
Defined.

(** ** The response timeout *)

(** X3.  While [latency_us * 5] is an [int], the response timeout is at
    least 1 ms; it is 1 ms for every target latency below 400 us (also for
    a negative one) and a two-hundredth of the latency, rounded down, from
    200 us on. *)
Theorem calc_req_timeout_from_latency_bounds latency_us :
  - 2 ^ 31 <= latency_us * TIMEOUT_LATENCY_MULTIPLIER < 2 ^ 31 ->
  1 <= calc_req_timeout_from_latency latency_us
  ∧ (latency_us < 400 -> calc_req_timeout_from_latency latency_us = 1)
  ∧ (200 <= latency_us ->
     calc_req_timeout_from_latency latency_us = latency_us / 200).
Proof.
  intros _. unfold calc_req_timeout_from_latency, TIMEOUT_LATENCY_MULTIPLIER.
  split; [lia|]. split.
  - intros Hlt. destruct (Z.le_gt_cases 0 latency_us) as [Hpos|Hneg].
    + rewrite Z.quot_div_nonneg by lia.
      assert (latency_us * 5 / 1000 <= 1)
        by (apply Z.lt_succ_r, Z.div_lt_upper_bound; lia).
      lia.
    + assert (Z.quot (latency_us * 5) 1000 <= 0); [|lia].
      replace (latency_us * 5) with (- (- latency_us * 5)) by lia.
      rewrite Z.quot_opp_l by lia.
      assert (0 <= Z.quot (- latency_us * 5) 1000)
        by (apply Z.quot_pos; lia).
      lia.
  - intros Hge. rewrite Z.quot_div_nonneg by lia.
    replace (latency_us * 5 / 1000) with (latency_us / 200).
    + assert (1 <= latency_us / 200)
        by (apply Z.div_le_lower_bound; lia).
      lia.
    + replace 1000 with (5 * 200) by lia.
      rewrite (Z.mul_comm latency_us 5).
      by rewrite Z.div_mul_cancel_l by lia.
Qed.

(** The default target latency gives a timeout of 2.5 s. *)
Lemma calc_req_timeout_from_latency_bounds_witness :
  - 2 ^ 31 <= DEFAULT_LATENCY_US * TIMEOUT_LATENCY_MULTIPLIER < 2 ^ 31
  ∧ calc_req_timeout_from_latency DEFAULT_LATENCY_US = 2500.
Proof.
  assert (H : - 2 ^ 31 <= DEFAULT_LATENCY_US * TIMEOUT_LATENCY_MULTIPLIER
              < 2 ^ 31) by (by vm_compute).
  split; [exact H|].
  destruct (calc_req_timeout_from_latency_bounds DEFAULT_LATENCY_US H)
    as (_ & _ & H3).
  rewrite H3; [reflexivity | by vm_compute].
Defined.

(** ** The server string *)

(** X4.  A server string that, once trimmed, is [h:p] with no colon in [p]
    and is not wholly bracketed is split at its last colon: the host is
    [h] and the port is what [stoi] reads from [p]; the call throws when
    [stoi] does.  An IPv6 literal in brackets followed by a port is such a
    string. *)
Theorem host_port_from_server_split trim stoi server h p :
  trim server = h +:+ ":" +:+ p ->
  find_last_colon p = None ->
  string_front (trim server) <> "["%char
  ∨ string_back (trim server) <> "]"%char ->
  host_port_from_server trim stoi server = (fun n => (h, n)) <$> stoi p.
Proof.
  intros Ht Hp Hb. unfold host_port_from_server.
  assert (Hcond : negb (Ascii.eqb (string_front (trim server)) "[")
                  || negb (Ascii.eqb (string_back (trim server)) "]") = true).
  { apply orb_true_iff.
    destruct Hb as [Hb|Hb]; [left|right]; apply negb_true_iff, Ascii.eqb_neq;
      done. }
  rewrite Hcond, Ht.
  change (h +:+ ":" +:+ p) with (h +:+ String ":" p).
  rewrite find_last_colon_app by done. rewrite substr_to_app.
  replace (String.length h + 1)%nat with (String.length (h +:+ ":"))
    by (by rewrite string_length_app).
  change (h +:+ String ":" p) with (h +:+ (":" +:+ p)).
  rewrite <- string_app_assoc, substr_from_app.
  by destruct (stoi p).
Qed.

Lemma host_port_from_server_split_witness :
  trim_blanks " [2001:db8::1]:8888 " = "[2001:db8::1]" +:+ ":" +:+ "8888"
  ∧ host_port_from_server trim_blanks stoi_digits " [2001:db8::1]:8888 "
    = Some ("[2001:db8::1]", 8888).
Proof.
  split; [reflexivity|].
  refine (host_port_from_server_split trim_blanks stoi_digits
            " [2001:db8::1]:8888 " "[2001:db8::1]" "8888" eq_refl eq_refl _).
  right. discriminate.
Defined.

(** X5.  A server string that, once trimmed, has no colon, or that begins
    with an opening and ends with a closing bracket, is taken whole as the
    host, with port 0; [stoi] is not called, so the call cannot throw.
    This covers the empty string. *)
Theorem host_port_from_server_no_port trim stoi server :
  find_last_colon (trim server) = None
  ∨ (string_front (trim server) = "["%char
     ∧ string_back (trim server) = "]"%char) ->
  host_port_from_server trim stoi server = Some (trim server, 0).
Proof.
  intros H. unfold host_port_from_server.
  destruct (negb _ || negb _) eqn:Hc; [|done].
  destruct H as [->|[Hf Hb]]; [done|].
  rewrite Hf, Hb in Hc. done.
Qed.

Lemma host_port_from_server_no_port_witness :
  string_front (trim_blanks "[::1]") = "["%char
  ∧ string_back (trim_blanks "[::1]") = "]"%char
  ∧ host_port_from_server trim_blanks stoi_digits "[::1]" = Some ("[::1]", 0).
Proof.
  split; [reflexivity|]. split; [reflexivity|].
  apply (host_port_from_server_no_port trim_blanks stoi_digits "[::1]").
  right. split; reflexivity.
Defined.

(** ** The recorder *)

(** X6.  After any sequence of debug callbacks the recorder's request is
    what it was followed by the data of the outbound header and body
    callbacks, in order, and its response is what it was followed by the
    data of the inbound header and body callbacks; text, TLS data and any
    other kind of callback leave both untouched. *)
Theorem record_all_payload calls r :
  request (record_all calls r) = request r +:+ payload is_outbound calls
  ∧ response (record_all calls r) = response r +:+ payload is_inbound calls.
Proof.
  revert r. induction calls as [|[type data] rest IH]; intros r.
  - cbn. by rewrite !string_app_nil_r.
  - change (record_all ((type, data) :: rest) r)
      with (record_all rest (record_data type data r).1).
    destruct (IH (record_data type data r).1) as [-> ->].
    destruct type; cbn [record_data fst request response payload is_outbound
                        is_inbound];
      by rewrite ?string_app_assoc.
Qed.

(** ** Diameter request timeouts *)

(** X7.  For a normalised clock reading and any [unsigned int] timeout, the
    absolute time handed to freeDiameter is normalised (its nanoseconds are
    below one second) and lies exactly [timeout_ms] milliseconds after the
    clock reading; the products on [unsigned int] do not wrap. *)
Theorem send_timeout_ts_exact now timeout_ms :
  0 <= tv_nsec now < 1000000000 ->
  0 <= timeout_ms < 2 ^ 32 ->
  let ts := send_timeout_ts now timeout_ms in
  0 <= tv_nsec ts < 1000000000
  ∧ tv_sec ts * 1000000000 + tv_nsec ts
    = tv_sec now * 1000000000 + tv_nsec now + timeout_ms * 1000000.
Proof.
  intros Hn Ht ts. subst ts. unfold send_timeout_ts, uint32.
  cbn [tv_sec tv_nsec].
  assert (Hm : 0 <= timeout_ms mod 1000 < 1000) by (apply Z.mod_pos_bound; lia).
  rewrite (Z.mod_small (timeout_ms mod 1000)) by lia.
  rewrite (Z.mod_small (timeout_ms mod 1000 * 1000)) by lia.
  rewrite (Z.mod_small (timeout_ms mod 1000 * 1000 * 1000)) by lia.
  assert (Hd : 0 <= timeout_ms / 1000 < 2 ^ 32).
  { split; [apply Z.div_pos; lia|].
    apply Z.div_lt_upper_bound; lia. }
  rewrite (Z.mod_small (timeout_ms / 1000)) by lia.
  change (1000 * 1000 * 1000) with 1000000000.
  set (n := tv_nsec now + timeout_ms mod 1000 * 1000 * 1000).
  assert (Hn0 : 0 <= n) by (subst n; lia).
  rewrite Z.quot_div_nonneg, Z.rem_mod_nonneg by lia.
  pose proof (Z.mod_pos_bound n 1000000000 ltac:(lia)).
  pose proof (Z.div_mod n 1000000000 ltac:(lia)).
  pose proof (Z.div_mod timeout_ms 1000 ltac:(lia)).
  split; [lia|]. subst n. lia.
Qed.

Lemma send_timeout_ts_exact_witness :
  let ts := send_timeout_ts (mkTimespec 10 999999999) 1500 in
  0 <= 999999999 < 1000000000
  ∧ 0 <= 1500 < 2 ^ 32
  ∧ 0 <= tv_nsec ts < 1000000000
  ∧ tv_sec ts * 1000000000 + tv_nsec ts
    = 10 * 1000000000 + 999999999 + 1500 * 1000000.
Proof.
  split; [by vm_compute|]. split; [by vm_compute|].
  apply (send_timeout_ts_exact (mkTimespec 10 999999999) 1500);
    by vm_compute.
Defined.

(** ** The peer list of the Diameter stack *)

Lemma hook_scan_no_match type host peers :
  (forall p, p ∈ peers -> peer_host p <> host) ->
  hook_scan type host peers = (peers, []).
Proof.
  induction peers as [|p rest IH]; intros Hno; [done|].
  cbn [hook_scan].
  destruct (String.eqb_spec (peer_host p) host) as [Heq|Hne].
  - exfalso. apply (Hno p); [by left|done].
  - rewrite IH; [done|]. intros q Hq. apply Hno. by right.
Qed.

(** X8.  A hook of any type other than connect-success and connect-failed,
    a hook without a peer, and a hook about a host that no peer of the list
    has, leave the peer list as it is and reach no listener. *)
Theorem fd_hook_cb_ignored type peer _peers :
  (exists n, type = HOOK_OTHER n)
  ∨ peer = None
  ∨ (exists host, peer = Some host
                  ∧ forall p, p ∈ _peers -> peer_host p <> host) ->
  fd_hook_cb type peer _peers = (_peers, []).
Proof.
  intros [[n ->]|[->|(host & -> & Hno)]]; unfold fd_hook_cb.
  - done.
  - by destruct type.
  - destruct type; try done; by apply hook_scan_no_match.
Qed.

Lemma fd_hook_cb_ignored_witness :
  fd_hook_cb HOOK_PEER_CONNECT_FAILED None [mkPeer 1 "hss1"; mkPeer 2 "hss2"]
  = ([mkPeer 1 "hss1"; mkPeer 2 "hss2"], []).
Proof.
  apply (fd_hook_cb_ignored HOOK_PEER_CONNECT_FAILED None
           [mkPeer 1 "hss1"; mkPeer 2 "hss2"]).
  right. left. reflexivity.
Defined.

(** X9.  A connect-failed hook about a host removes from the peer list the
    first peer with that host, and only that one, and reports it to its
    listener once; a connect-success hook leaves the list as it is, reports
    the first peer with that host to its listener and then marks it
    connected.  Later peers with the same host are not touched. *)
Theorem fd_hook_cb_first_match host l1 p l2 :
  peer_host p = host ->
  (forall q, q ∈ l1 -> peer_host q <> host) ->
  fd_hook_cb HOOK_PEER_CONNECT_FAILED (Some host) (l1 ++ p :: l2)
  = (l1 ++ l2, [Ev_connection_failed p])
  ∧ fd_hook_cb HOOK_PEER_CONNECT_SUCCESS (Some host) (l1 ++ p :: l2)
    = (l1 ++ p :: l2, [Ev_connection_succeeded p; Ev_set_connected p]).
Proof.
  intros Hp Hno. unfold fd_hook_cb.
  induction l1 as [|q l1 IH]; cbn [app hook_scan].
  - rewrite Hp, String.eqb_refl. done.
  - destruct (String.eqb_spec (peer_host q) host) as [Heq|Hne].
    { exfalso. apply (Hno q); [by left|done]. }
    destruct IH as [-> ->]; [|done]. intros r Hr. apply Hno. by right.
Qed.

Lemma fd_hook_cb_first_match_witness :
  fd_hook_cb HOOK_PEER_CONNECT_FAILED (Some "hss2")
    ([mkPeer 1 "hss1"] ++ mkPeer 2 "hss2" :: [mkPeer 3 "hss2"])
  = ([mkPeer 1 "hss1"; mkPeer 3 "hss2"], [Ev_connection_failed (mkPeer 2 "hss2")]).
Proof.
  refine (proj1 (fd_hook_cb_first_match "hss2" [mkPeer 1 "hss1"]
                   (mkPeer 2 "hss2") [mkPeer 3 "hss2"] eq_refl _)).
  intros q Hq. apply list_elem_of_singleton in Hq as ->. discriminate.
Defined.

Lemma erase_first_absent ptr peers :
  (forall q, q ∈ peers -> peer_ptr q <> ptr) -> erase_first ptr peers = peers.
Proof.
  induction peers as [|q rest IH]; intros Hno; [done|]. cbn [erase_first].
  destruct (Nat.eqb_spec (peer_ptr q) ptr) as [Heq|Hne].
  - exfalso. apply (Hno q); [by left|done].
  - rewrite IH; [done|]. intros r Hr. apply Hno. by right.
Qed.

(** X10.  [Stack::add] appends the peer when freeDiameter accepts it and
    changes nothing when it refuses it; [Stack::remove] of a peer that is
    not in the list changes nothing (freeDiameter is still told to remove
    the host), so removing a peer just added to a list that did not hold
    it gives that list back. *)
Theorem stack_add_remove rc peer _peers :
  (forall q, q ∈ _peers -> peer_ptr q <> peer_ptr peer) ->
  (rc <> 0 -> stack_add rc peer _peers = (false, _peers))
  ∧ stack_add 0 peer _peers = (true, _peers ++ [peer])
  ∧ stack_remove peer _peers = (_peers, [Ev_fd_peer_remove (peer_host peer)])
  ∧ stack_remove peer (stack_add 0 peer _peers).2
    = (_peers, [Ev_fd_peer_remove (peer_host peer)]).
Proof.
  intros Hno. unfold stack_add, stack_remove. split; [|split; [|split]].
  - intros Hrc. by rewrite (proj2 (Z.eqb_neq rc 0) Hrc).
  - done.
  - by rewrite erase_first_absent.
  - cbn [Z.eqb snd]. f_equal.
    induction _peers as [|q rest IH]; cbn [app erase_first].
    + by rewrite Nat.eqb_refl.
    + destruct (Nat.eqb_spec (peer_ptr q) (peer_ptr peer)) as [Heq|Hne].
      { exfalso. apply (Hno q); [by left|done]. }
      rewrite IH; [done|]. intros r Hr. apply Hno. by right.
Qed.

Lemma stack_add_remove_witness :
  stack_remove (mkPeer 2 "hss2") (stack_add 0 (mkPeer 2 "hss2")
                                    [mkPeer 1 "hss1"]).2
  = ([mkPeer 1 "hss1"], [Ev_fd_peer_remove "hss2"]).
Proof.
  refine (proj2 (proj2 (proj2 (stack_add_remove 0 (mkPeer 2 "hss2")
                                 [mkPeer 1 "hss1"] _)))).
  intros q Hq. apply list_elem_of_singleton in Hq as ->. discriminate.
Defined.

(** ** The statistics table and the pool entries *)

Lemma occurrences_cons ip e es :
  occurrences ip (e :: es)
  = ((if decide (_remote_ip e = ip) then 1 else 0) + occurrences ip es)%nat.
Proof.
  unfold occurrences. rewrite filter_cons. by destruct (decide _).
Qed.

Lemma occurrences_insert ip i e e' es :
  es !! i = Some e ->
  (occurrences ip (<[i:=e']> es)
   + (if decide (_remote_ip e = ip) then 1 else 0)
   = occurrences ip es + (if decide (_remote_ip e' = ip) then 1 else 0))%nat.
Proof.
  revert i. induction es as [|x es IH]; intros i Hi; [done|].
  destruct i as [|i]; cbn in Hi.
  - injection Hi as ->.
    change (<[0%nat:=e']> (e :: es)) with (e' :: es).
    rewrite !occurrences_cons. lia.
  - change (<[S i:=e']> (x :: es)) with (x :: <[i:=e']> es).
    rewrite !occurrences_cons. specialize (IH i Hi). lia.
Qed.

Lemma occurrences_pos i e es :
  es !! i = Some e -> (1 <= occurrences (_remote_ip e) es)%nat.
Proof.
  revert i. induction es as [|x es IH]; intros i Hi; [done|].
  rewrite occurrences_cons. destruct i as [|i]; cbn in Hi.
  - injection Hi as ->. rewrite decide_True by done. lia.
  - specialize (IH i Hi). lia.
Qed.

Lemma occurrences_delete ip i e es :
  es !! i = Some e ->
  (occurrences ip (delete i es)
   + (if decide (_remote_ip e = ip) then 1 else 0)
   = occurrences ip es)%nat.
Proof.
  revert i. induction es as [|x es IH]; intros i Hi; [done|].
  destruct i as [|i]; cbn in Hi.
  - injection Hi as ->.
    change (delete 0%nat (e :: es)) with es.
    rewrite occurrences_cons. lia.
  - change (delete (S i) (x :: es)) with (x :: delete i es).
    rewrite !occurrences_cons. specialize (IH i Hi). lia.
Qed.

Lemma occurrences_app ip es1 es2 :
  occurrences ip (es1 ++ es2)
  = (occurrences ip es1 + occurrences ip es2)%nat.
Proof. unfold occurrences. by rewrite filter_app, length_app. Qed.

Lemma update_snmp_ip_counts_lookup old value t ip :
  update_snmp_ip_counts old value t !! ip
  = let row :=
      if decide (old = "") then t !! ip
      else if decide (ip = old)
           then (if stat_count old t - 1 =? 0 then None
                 else Some (stat_count old t - 1))
           else t !! ip in
    if decide (value = "") then row
    else if decide (ip = value) then Some (default 0 row + 1) else row.
Proof.
  unfold update_snmp_ip_counts, stat_decrement, stat_remove, stat_increment.
  cbn zeta.
  set (t1 := if decide (old = "") then t else _).
  assert (H1 : forall k, t1 !! k
            = if decide (old = "") then t !! k
              else if decide (k = old)
                   then (if stat_count old t - 1 =? 0 then None
                         else Some (stat_count old t - 1))
                   else t !! k).
  { intros k. subst t1. destruct (decide (old = "")); [done|].
    destruct (stat_count old t - 1 =? 0).
    - destruct (decide (k = old)) as [->|Hne].
      + by rewrite lookup_delete_eq.
      + by rewrite lookup_delete_ne, lookup_insert_ne.
    - destruct (decide (k = old)) as [->|Hne].
      + by rewrite lookup_insert_eq.
      + by rewrite lookup_insert_ne. }
  destruct (decide (value = "")); [apply H1|].
  destruct (decide (ip = value)) as [->|Hne].
  - rewrite lookup_insert_eq. unfold stat_count. by rewrite H1.
  - rewrite lookup_insert_ne by done. apply H1.
Qed.

Lemma set_remote_ip_at_consistent i value c es :
  stat_consistent c es ->
  stat_consistent (set_remote_ip_at i value (c, es)).1
                  (set_remote_ip_at i value (c, es)).2.
Proof.
  intros (t & Ht & Hrows). unfold set_remote_ip_at. cbn [fst snd].
  destruct (es !! i) as [e|] eqn:Hi; [|by exists t].
  unfold set_remote_ip.
  destruct (decide (value = _remote_ip e)) as [Heq|Hne].
  { cbn [fst snd]. rewrite list_insert_id by done. by exists t. }
  rewrite Ht. cbn [fst snd].
  eexists. split; [reflexivity|]. intros ip.
  rewrite update_snmp_ip_counts_lookup. cbn zeta.
  pose proof (occurrences_insert ip i e (with_remote_ip value e) es Hi) as Hocc.
  cbn [with_remote_ip _remote_ip] in Hocc.
  assert (Hold : _remote_ip e <> "" ->
            stat_count (_remote_ip e) t
            = Z.of_nat (occurrences (_remote_ip e) es)
            ∧ (1 <= occurrences (_remote_ip e) es)%nat).
  { intros Hne0. pose proof (Hrows (_remote_ip e)) as Hr.
    pose proof (occurrences_pos i e es Hi) as Hge.
    rewrite decide_False in Hr by (intros [?|?]; [done|lia]).
    unfold stat_count. by rewrite Hr. }
  specialize (Hrows ip).
  set (o := occurrences ip es) in *.
  set (o' := occurrences ip (<[i:=with_remote_ip value e]> es)) in *.
  set (oe := occurrences (_remote_ip e) es) in *.
  assert (Hoe : ip = _remote_ip e -> o = oe) by (by intros ->).
  clearbody o o' oe.
  destruct (Z.eqb_spec (stat_count (_remote_ip e) t - 1) 0) as [Hz|Hz];
    repeat case_decide; simplify_eq/=; try done;
    repeat match goal with
           | H : ?P -> _ |- _ =>
               let HP := fresh in
               assert (HP : P) by done; specialize (H HP); clear HP
           end;
    try (destruct_and?; destruct_or?; simplify_eq/=; try done;
         try (f_equal; lia); try lia).
  all: try (rewrite Hrows; cbn; f_equal; lia).
  all: try clear Hold.
  all: try (exfalso; naive_solver lia).
  all: try (rewrite Hrows; f_equal; naive_solver lia).
Qed.

Lemma set_remote_ip_at_cleared i c es e' :
  (set_remote_ip_at i "" (c, es)).2 !! i = Some e' -> _remote_ip e' = "".
Proof.
  unfold set_remote_ip_at. cbn [fst snd].
  destruct (es !! i) as [e|] eqn:Hi; [|cbn [snd]; by rewrite Hi].
  pose proof (set_remote_ip_stored "" (c, e)) as Hst.
  destruct (set_remote_ip "" (c, e)) as [c1 e1]. cbn [snd] in *.
  rewrite list_lookup_insert_eq by (by eapply lookup_lt_Some).
  by intros [= <-].
Qed.

Lemma pool_step_consistent op c es :
  stat_consistent c es ->
  stat_consistent (pool_step (c, es) op).1 (pool_step (c, es) op).2.
Proof.
  intros Hc. destruct op as [sampler|i value|i]; cbn [pool_step fst snd].
  - destruct Hc as (t & Ht & Hrows). exists t. split; [done|]. intros ip.
    rewrite Hrows, occurrences_app, occurrences_cons.
    change (occurrences ip []) with 0%nat.
    cbn [new_PoolEntry _remote_ip].
    destruct (decide ("" = ip)) as [<-|Hne].
    + by rewrite !(decide_True (P := "" = "" ∨ _)) by auto.
    + by rewrite !Nat.add_0_r.
  - by apply set_remote_ip_at_consistent.
  - unfold cleanup_curl_at. cbn [fst snd].
    pose proof (set_remote_ip_at_consistent i "" c es Hc) as (t & Ht & Hrows).
    pose proof (set_remote_ip_at_cleared i c es) as Hcl.
    destruct (set_remote_ip_at i "" (c, es)) as [c1 es1]. cbn [fst snd] in *.
    exists t. split; [done|]. intros ip. rewrite Hrows.
    destruct (es1 !! i) as [e1|] eqn:Hi.
    + pose proof (occurrences_delete ip i e1 es1 Hi) as Hd.
      rewrite (Hcl e1 eq_refl) in Hd.
      destruct (decide ("" = ip)) as [<-|Hne].
      * by rewrite !(decide_True (P := "" = "" ∨ _)) by auto.
      * by replace (occurrences ip (delete i es1)) with (occurrences ip es1)
          by lia.
    + apply lookup_ge_None in Hi.
      by rewrite delete_take_drop, take_ge, drop_ge, app_nil_r by lia.
Qed.

(** X11.  Starting from an empty statistics table and no pool entry, after
    any sequence of threads creating their pool entry, setting a remote IP
    and cleaning their handle up, the table has a row for exactly the
    non-empty remote IPs some pool entry holds, and the row counts those
    pool entries: no row is at zero or below, and none is left behind. *)
Theorem stat_table_tracks_pool ops c :
  _stat_table c = Some ∅ ->
  let ces := pool_run ops (c, []) in
  exists t, _stat_table ces.1 = Some t
    ∧ forall ip,
        (ip <> "" -> stat_count ip t = Z.of_nat (occurrences ip ces.2))
        ∧ (forall n, t !! ip = Some n ->
             ip <> "" ∧ 1 <= n ∧ n = Z.of_nat (occurrences ip ces.2))
        ∧ (t !! ip = None -> ip = "" ∨ occurrences ip ces.2 = 0%nat).
Proof.
  intros Hc ces.
  assert (Hinv : stat_consistent ces.1 ces.2).
  { subst ces. unfold pool_run.
    assert (H0 : stat_consistent (c, @nil PoolEntry).1 (c, @nil PoolEntry).2).
    { exists ∅. split; [done|]. intros ip. rewrite lookup_empty.
      by rewrite decide_True by (by right). }
    generalize dependent (c, @nil PoolEntry). clear Hc.
    induction ops as [|op ops IH]; intros ces H0; [done|].
    cbn [foldl]. apply IH. destruct ces as [c0 es0].
    by apply pool_step_consistent. }
  destruct Hinv as (t & Ht & Hrows). exists t. split; [done|].
  intros ip. specialize (Hrows ip). unfold stat_count. rewrite Hrows.
  destruct (decide (ip = "" ∨ occurrences ip ces.2 = 0%nat)) as [[H|H]|H].
  - split; [done|]. split; [done|]. auto.
  - split; [intros _; cbn; lia|]. split; [done|]. auto.
  - split; [done|]. split; [|done].
    intros n [= <-]. split; [naive_solver|]. split; [|done].
    assert (occurrences ip ces.2 <> 0%nat) by naive_solver. lia.
Qed.

(** Two threads on 10.0.0.1, one of which then moves to 10.0.0.2 and
    the other of which is cleaned up. *)
Lemma stat_table_tracks_pool_witness :
  let ces := pool_run [Op_new_entry (fun _ => 60000);
                       Op_new_entry (fun _ => 60000);
                       Op_set_remote_ip 0 "10.0.0.1";
                       Op_set_remote_ip 1 "10.0.0.1";
                       Op_set_remote_ip 0 "10.0.0.2";
                       Op_cleanup_curl 1]
                      (scenario_conn 8080 false, []) in
  _stat_table (scenario_conn 8080 false) = Some ∅
  ∧ (_remote_ip <$> ces.2) = ["10.0.0.2"]
  ∧ exists t, _stat_table ces.1 = Some t
      ∧ stat_count "10.0.0.1" t = 0 ∧ stat_count "10.0.0.2" t = 1.
Proof.
  split; [reflexivity|]. split; [reflexivity|].
  destruct (stat_table_tracks_pool
              [Op_new_entry (fun _ => 60000);
               Op_new_entry (fun _ => 60000);
               Op_set_remote_ip 0 "10.0.0.1";
               Op_set_remote_ip 1 "10.0.0.1";
               Op_set_remote_ip 0 "10.0.0.2";
               Op_cleanup_curl 1]
              (scenario_conn 8080 false) eq_refl) as (t & Ht & Hrows).
  exists t. split; [exact Ht|]. split.
  - destruct (Hrows "10.0.0.1") as (H & _). rewrite H; [reflexivity|discriminate].
  - destruct (Hrows "10.0.0.2") as (H & _). rewrite H; [reflexivity|discriminate].
Defined.

(** ** The set-up of the transfers *)

Lemma transfer_setups_app l1 l2 :
  transfer_setups (l1 ++ l2) = transfer_setups l1 ++ transfer_setups l2.
Proof. apply omap_app. Qed.

Lemma comm_events_app l1 l2 :
  comm_events (l1 ++ l2) = comm_events l1 ++ comm_events l2.
Proof. apply omap_app. Qed.

Lemma feedback_quiet l :
  Forall (fun ev => is_feedback ev = true) l ->
  transfer_setups l = [] ∧ comm_events l = [].
Proof.
  induction 1 as [|ev l Hev _ [IH1 IH2]]; [done|].
  destruct ev; try discriminate; by split.
Qed.

Lemma sas_logs_feedback c :
  (forall b, Forall (fun ev => is_feedback ev = true) (sas_log_http_req c b))
  ∧ (forall n b,
       Forall (fun ev => is_feedback ev = true) (sas_log_http_rsp c n b))
  ∧ (forall ip p code,
       Forall (fun ev => is_feedback ev = true)
              (sas_log_curl_error c ip p code)).
Proof.
  unfold sas_log_http_req, sas_log_http_rsp, sas_log_curl_error.
  destruct (_sas_log_level c); repeat split; intros; repeat constructor.
Qed.

Section AttemptSetup.

Context (env : Env) (c : HttpConnection) (path : string)
        (hdrs : list string) (recycle_conn : bool) (now_ms : Z).

Lemma attempt_shape k i s :
  let r := curl_easy_perform env k i recycle_conn in
  let s' := (attempt env c path hdrs recycle_conn now_ms k i s).1 in
  (exists tail,
     log s' = log s
              ++ Ev_perform i recycle_conn
                   (_host_resolve (entry s) ++ [resolve_add env c i])
                   (target_url c path i) hdrs r :: tail
     ∧ Forall (fun ev => is_feedback ev = true) tail)
  ∧ entry s'
    = (if bool_decide (classify r = ok) && recycle_conn
       then update_deadline now_ms
              (set_host_resolve [resolve_remove c i] (entry s))
       else set_host_resolve [resolve_remove c i] (entry s)).
Proof.
  intros r s'. subst s'. unfold attempt. fold r.
  destruct (sas_logs_feedback c) as (Hf1 & Hf2 & Hf3).
  set (lreq := if decide (reply_request r = "") then []
               else sas_log_http_req c (reply_request r)).
  assert (Hreq : Forall (fun ev => is_feedback ev = true) lreq).
  { subst lreq. destruct (decide _); [constructor | apply Hf1]. }
  clearbody lreq.
  set (lrsp := if bool_decide (reply_rc r = CURLE_OK)
               then sas_log_http_rsp _ _ _ else _).
  assert (Hrsp : Forall (fun ev => is_feedback ev = true) lrsp).
  { subst lrsp. destruct (bool_decide _); [apply Hf2 | apply Hf3]. }
  clearbody lrsp. clear Hf1 Hf2 Hf3.
  cbn [CURLINFO_RESPONSE_CODE].
  change (if bool_decide (reply_rc r = CURLE_OK)
          then reply_response_code r else 0) with (http_rc_of r).
  rewrite success_iff_ok. clearbody r.
  fold (resolve_add env c i) (resolve_remove c i) (target_url c path i).
  destruct (bool_decide (classify r = ok)) eqn:Hok; cbn [andb].
  - cbn [fst entry log]. split; [|by destruct recycle_conn].
    exists (lreq ++ lrsp). split; [|by apply Forall_app].
    by rewrite <- ?app_assoc.
  - apply bool_decide_eq_false in Hok.
    rewrite count_failure_classify by done.
    set (lbl := if recycle_conn && _ && _ && _ then [Ev_blacklist i] else []).
    assert (Hbl : Forall (fun ev => is_feedback ev = true) lbl).
    { subst lbl. destruct (_ && _ && _ && _); repeat constructor. }
    clearbody lbl.
    destruct (_ || _ || is_fatal (classify r)); cbn [fst entry log].
    + split; [|done].
      exists (lreq ++ lrsp ++ lbl
              ++ sas_log_http_abort
                   (if is_fatal (classify r) then Permanent else Temporary)).
      split.
      * rewrite <- ?app_assoc. cbn [app]. by rewrite <- ?app_assoc.
      * repeat apply Forall_app_2; try done. repeat constructor.
    + split; [|done].
      exists (lreq ++ lrsp ++ lbl). split.
      * rewrite <- ?app_assoc. cbn [app]. by rewrite <- ?app_assoc.
      * by repeat apply Forall_app_2.
Qed.

Lemma bool_decide_last_ok (o : Outcome) :
  bool_decide (Some o = Some ok) = bool_decide (o = ok).
Proof. apply bool_decide_ext. split; [by intros [= ->]|by intros ->]. Qed.

Lemma attempt_loop_setup targets : forall k s,
  let s' := attempt_loop env c path hdrs recycle_conn now_ms k targets s in
  let att :=
    expected_transfers env recycle_conn k targets (num_http_503_responses s)
      (num_http_504_responses s) (num_timeouts_or_io_errors s) in
  let tried := (fun a => a.1.1) <$> att in
  let renewed := bool_decide (last (outcomes att) = Some ok) && recycle_conn in
  transfer_setups (log s')
  = transfer_setups (log s)
    ++ expected_setups env c path hdrs (_host_resolve (entry s)) tried
  ∧ comm_events (log s') = comm_events (log s)
  ∧ _host_resolve (entry s')
    = match last tried with
      | None => _host_resolve (entry s)
      | Some i => [resolve_remove c i]
      end
  ∧ _rand (entry s') = _rand (entry s)
  ∧ _rand_drawn (entry s')
    = (if renewed then S (_rand_drawn (entry s)) else _rand_drawn (entry s))
  ∧ _deadline_ms (entry s')
    = (if renewed then _deadline_ms (update_deadline now_ms (entry s))
       else _deadline_ms (entry s)).
Proof.
  induction targets as [|i rest IH]; intros k s; cbn zeta.
  - cbn [attempt_loop expected_transfers]. cbn. by rewrite app_nil_r.
  - cbn [attempt_loop expected_transfers].
    pose proof (attempt_spec env c path hdrs recycle_conn now_ms k i s) as Hat.
    pose proof (attempt_shape k i s) as Hsh.
    cbn zeta in Hat, Hsh.
    destruct (attempt env c path hdrs recycle_conn now_ms k i s)
      as [s1 stop] eqn:Hatt.
    cbn [fst snd] in Hat, Hsh.
    set (r := curl_easy_perform env k i recycle_conn) in *.
    destruct Hat as (_ & H503 & H504 & Hto & Hstop & _).
    destruct Hsh as ((tail & Hlog & Htail) & Hentry).
    destruct (feedback_quiet tail Htail) as [Hq1 Hq2].
    unfold over_budget in Hstop. rewrite H503, H504, Hto in Hstop.
    rewrite <- Hstop.
    assert (Hsetup : transfer_setups (log s1)
              = transfer_setups (log s)
                ++ [(_host_resolve (entry s) ++ [resolve_add env c i],
                     target_url c path i, hdrs)]).
    { rewrite Hlog, transfer_setups_app. f_equal.
      change (Ev_perform i recycle_conn
                (_host_resolve (entry s) ++ [resolve_add env c i])
                (target_url c path i) hdrs r :: tail)
        with ([Ev_perform i recycle_conn
                 (_host_resolve (entry s) ++ [resolve_add env c i])
                 (target_url c path i) hdrs r] ++ tail).
      rewrite transfer_setups_app, Hq1. done. }
    assert (Hcomm : comm_events (log s1) = comm_events (log s)).
    { rewrite Hlog, comm_events_app.
      change (Ev_perform i recycle_conn
                (_host_resolve (entry s) ++ [resolve_add env c i])
                (target_url c path i) hdrs r :: tail)
        with ([Ev_perform i recycle_conn
                 (_host_resolve (entry s) ++ [resolve_add env c i])
                 (target_url c path i) hdrs r] ++ tail).
      rewrite comm_events_app, Hq2. cbn. by rewrite app_nil_r. }
    destruct stop.
    + unfold outcomes. cbn [fmap list_fmap last fst snd expected_setups].
      fold r. rewrite bool_decide_last_ok, Hentry.
      split; [done|]. split; [done|].
      by destruct (bool_decide (classify r = ok) && recycle_conn).
    + specialize (IH (S k) s1). cbn zeta in IH.
      rewrite H503, H504, Hto in IH.
      set (att' := expected_transfers env recycle_conn (S k) rest _ _ _) in *.
      destruct IH as (Isetup & Icomm & Inote & Irand & Idrawn & Idl).
      symmetry in Hstop. apply orb_false_iff in Hstop as [Hstop _].
      apply orb_false_iff in Hstop as [Hnok _].
      rewrite Hnok in Hentry. cbn [andb] in Hentry.
      assert (Hrenew :
        bool_decide (last (outcomes ((i, recycle_conn, r) :: att')) = Some ok)
        = bool_decide (last (outcomes att') = Some ok)).
      { unfold outcomes. cbn [fmap list_fmap snd]. rewrite last_cons.
        generalize (last ((fun a : AddrInfo * bool * Reply => classify a.2)
                            <$> att')).
        intros [o|]; [done|].
        rewrite bool_decide_last_ok, Hnok. by rewrite bool_decide_eq_false_2. }
      rewrite Hrenew. clear Hrenew.
      rewrite Hentry in Isetup, Inote, Irand, Idrawn, Idl.
      cbn [set_host_resolve _host_resolve _rand _rand_drawn _deadline_ms]
        in Isetup, Inote, Irand, Idrawn, Idl.
      cbn [fmap list_fmap fst expected_setups].
      split; [|split; [|split; [|split; [|split]]]].
      * by rewrite Isetup, Hsetup, <- app_assoc.
      * by rewrite Icomm.
      * rewrite Inote, last_cons. by destruct (last _).
      * done.
      * done.
      * done.
Qed.

End AttemptSetup.

Lemma set_remote_ip_frame value c e :
  let e' := (set_remote_ip value (c, e)).2 in
  _host_resolve e' = _host_resolve e ∧ _rand e' = _rand e
  ∧ _rand_drawn e' = _rand_drawn e ∧ _deadline_ms e' = _deadline_ms e.
Proof.
  unfold set_remote_ip. destruct (decide (value = _remote_ip e)); [done|].
  by destruct (_stat_table c).
Qed.

Section CallSetup.

Context (env : Env) (c : HttpConnection) (e : PoolEntry) (curl : CurlHandle)
        (path body doc0 : string) (hdr : option (gmap string string))
        (username : string) (headers_to_add : list string) (now_ms : Z)
        (uuid_str : string).

Lemma send_request_setup_spec :
  let r := send_request env c e curl path body doc0 hdr username
                        headers_to_add now_ms uuid_str in
  let recycle_conn := is_connection_expired now_ms e in
  let att :=
    expected_transfers env recycle_conn 0
      (assemble_targets env c curl recycle_conn) 0 0 0 in
  let tried := (fun a => a.1.1) <$> att in
  let renewed := bool_decide (last (outcomes att) = Some ok) && recycle_conn in
  transfer_setups (log (res_state r))
  = expected_setups env c path
      (extra_headers env c body username uuid_str headers_to_add)
      (_host_resolve e) tried
  ∧ comm_events (log (res_state r))
    = (if _comm_monitor c
       then [(match last att with
              | None => false
              | Some (_, _, rep) =>
                  bool_decide (reply_rc rep = CURLE_OK)
                  && negb (2 <=? count_of http_503 (outcomes att))
              end, now_ms)]
       else [])
  ∧ _host_resolve (entry (res_state r))
    = match last tried with
      | None => _host_resolve e
      | Some i => [resolve_remove c i]
      end
  ∧ _rand_drawn (entry (res_state r))
    = (if renewed then S (_rand_drawn e) else _rand_drawn e)
  ∧ _deadline_ms (entry (res_state r))
    = (if renewed then _deadline_ms (update_deadline now_ms e)
       else _deadline_ms e).
Proof.
  intros r recycle_conn att tried renewed. subst r tried renewed att.
  unfold send_request. fold recycle_conn.
  set (hdrs := extra_headers env c body username uuid_str headers_to_add).
  set (targets := assemble_targets env c curl recycle_conn) in *.
  set (s0 := mkLoopState 0 0 0 CURLE_COULDNT_RESOLVE_HOST None e curl doc0 hdr
                         [Ev_report_marker uuid_str]).
  pose proof (attempt_loop_spec env c path hdrs recycle_conn now_ms targets 0 s0)
    as Hl.
  pose proof (attempt_loop_setup env c path hdrs recycle_conn now_ms targets 0 s0)
    as Hs.
  cbn zeta in Hl, Hs.
  cbn [num_http_503_responses num_http_504_responses
       num_timeouts_or_io_errors s0 entry log] in Hl, Hs.
  set (att := expected_transfers env recycle_conn 0 targets 0 0 0) in *.
  set (s1 := attempt_loop env c path hdrs recycle_conn now_ms 0 targets s0) in *.
  destruct Hl as (_ & _ & _ & _ & H503 & _ & _ & Hlast & _).
  destruct Hs as (Hsetup & Hcomm & Hnote & _ & Hdrawn & Hdl).
  rewrite Z.add_0_l in H503.
  set (lpen := if ((2 <=? num_http_503_responses s1)
                   || (1 <=? num_http_504_responses s1)) && _load_monitor c
               then [Ev_incr_penalties] else []).
  assert (Hlpen : transfer_setups lpen = [] ∧ comm_events lpen = []).
  { subst lpen.
    by destruct (((2 <=? num_http_503_responses s1) || _) && _load_monitor c). }
  destruct Hlpen as (Hp1 & Hp2).
  assert (Hrc : bool_decide (rc s1 = CURLE_OK)
                = match last att with
                  | None => false
                  | Some (_, _, rep) => bool_decide (reply_rc rep = CURLE_OK)
                  end).
  { destruct (last att) as [[[i f] rep]|].
    - destruct Hlast as (-> & _). done.
    - by rewrite Hlast. }
  destruct (bool_decide (rc s1 = CURLE_OK)) eqn:Hok.
  - set (stale := default "" (read_expired_buf env <$> remote_ip s1)).
    pose proof (set_remote_ip_frame stale c (entry s1)) as (F1 & _ & F3 & F4).
    destruct (set_remote_ip stale (c, entry s1)) as [c' e'] eqn:Hset.
    cbn [snd] in F1, F3, F4.
    cbn [res_state with_entry_log log entry].
    rewrite !transfer_setups_app, !comm_events_app, Hsetup, Hcomm, Hp1, Hp2,
      F1, F3, F4, Hnote, Hdrawn, Hdl.
    cbn [transfer_setups comm_events omap list_omap app].
    split.
    { destruct (_comm_monitor c); [|by rewrite !app_nil_r].
      destruct (2 <=? num_http_503_responses s1); by rewrite !app_nil_r. }
    split; [|done].
    destruct (_comm_monitor c); [|done].
    destruct (last att) as [[[i f] rep]|]; [|done].
    rewrite <- Hrc, <- H503. cbn [andb].
    by destruct (2 <=? num_http_503_responses s1).
  - pose proof (set_remote_ip_frame "" c (entry s1)) as (F1 & _ & F3 & F4).
    destruct (set_remote_ip "" (c, entry s1)) as [c' e'] eqn:Hset.
    cbn [snd] in F1, F3, F4.
    cbn [res_state with_entry_log log entry].
    rewrite !transfer_setups_app, !comm_events_app, Hsetup, Hcomm, Hp1, Hp2,
      F1, F3, F4, Hnote, Hdrawn, Hdl.
    cbn [transfer_setups comm_events omap list_omap app].
    split.
    { destruct (_comm_monitor c); by rewrite !app_nil_r. }
    split; [|done].
    destruct (_comm_monitor c); [|done].
    destruct (last att) as [[[i f] rep]|]; [|done].
    by rewrite <- Hrc.
Qed.

End CallSetup.

Lemma expected_setups_headers env c path hdrs tried : forall note setup,
  setup ∈ expected_setups env c path hdrs note tried -> setup.2 = hdrs.
Proof.
  induction tried as [|i rest IH]; intros note setup Hin;
    [by apply elem_of_nil in Hin|].
  cbn [expected_setups] in Hin. apply elem_of_cons in Hin as [->|Hin]; [done|].
  by eapply IH.
Qed.

Lemma expected_setups_bounded env c path hdrs tried : forall note setup,
  (length note <= 1)%nat ->
  setup ∈ expected_setups env c path hdrs note tried ->
  (length setup.1.1 <= 2)%nat.
Proof.
  induction tried as [|i rest IH]; intros note setup Hn Hin;
    [by apply elem_of_nil in Hin|].
  cbn [expected_setups] in Hin. apply elem_of_cons in Hin as [->|Hin].
  - cbn [fst]. rewrite length_app. cbn [length]. lia.
  - eapply IH; [|exact Hin]. done.
Qed.

Lemma expected_setups_length env c path hdrs tried : forall note,
  length (expected_setups env c path hdrs note tried) = length tried.
Proof.
  induction tried as [|i rest IH]; intros note; [done|].
  cbn [expected_setups length]. by rewrite IH.
Qed.

(** ** The per-call DNS overrides *)

(** X12.  Every transfer of a call runs with the URL of the host on its
    target's port, with the one header list built before the loop, and with
    a [CURLOPT_RESOLVE] list made of the directives the pool entry held,
    followed by the override for its own target; it leaves in the pool
    entry the single directive that removes that override.  So from the
    second transfer on the list is one removal and one override, and when a
    call starts with at most one directive pending no list has more than
    two entries and at most one directive is pending on return: overrides
    do not pile up. *)
Theorem send_request_dns_overrides env c e curl path body doc0 hdr username
    headers_to_add now_ms uuid_str :
  let r := send_request env c e curl path body doc0 hdr username
                        headers_to_add now_ms uuid_str in
  let tried := (fun a => a.1.1) <$> performed (log (res_state r)) in
  transfer_setups (log (res_state r))
  = expected_setups env c path
      (extra_headers env c body username uuid_str headers_to_add)
      (_host_resolve e) tried
  ∧ _host_resolve (entry (res_state r))
    = match last tried with
      | None => _host_resolve e
      | Some i => [resolve_remove c i]
      end
  ∧ ((length (_host_resolve e) <= 1)%nat ->
     (length (_host_resolve (entry (res_state r))) <= 1)%nat
     ∧ forall setup, setup ∈ transfer_setups (log (res_state r)) ->
         (length setup.1.1 <= 2)%nat).
Proof.
  intros r tried.
  destruct (send_request_spec env c e curl path body doc0 hdr username
              headers_to_add now_ms uuid_str) as (_ & Hperf & _).
  destruct (send_request_setup_spec env c e curl path body doc0 hdr username
              headers_to_add now_ms uuid_str) as (Hsetup & _ & Hnote & _).
  fold r in Hperf, Hsetup, Hnote. subst tried. rewrite Hperf, Hsetup, Hnote.
  split; [done|]. split; [done|]. intros Hlen. split.
  - by destruct (last _).
  - intros setup Hin. by eapply expected_setups_bounded.
Qed.

(** A first call that fails over from one target to the next. *)
Lemma send_request_dns_overrides_witness :
  let answer i :=
    if decide (i = target_A) then http_reply 503 [] []
    else http_reply 200 [] ["ok"] in
  let r := send_request (scenario_env [target_A; target_B] answer)
             (scenario_conn 8080 false) fresh_entry idle_handle
             "/p" "" "" None "" [] 5000 "uuid" in
  (length (_host_resolve fresh_entry) <= 1)%nat
  ∧ (fun setup => setup.1.1) <$> transfer_setups (log (res_state r))
    = [["backend:8080:10.0.0.1"]; ["-backend:8080"; "backend:8080:10.0.0.2"]]
  ∧ (length (_host_resolve (entry (res_state r))) <= 1)%nat.
Proof.
  set (answer := fun i =>
    if decide (i = target_A) then http_reply 503 [] []
    else http_reply 200 [] ["ok"]).
  cbn zeta.
  assert (H0 : (length (_host_resolve fresh_entry) <= 1)%nat)
    by (cbn; lia).
  destruct (send_request_dns_overrides
              (scenario_env [target_A; target_B] answer)
              (scenario_conn 8080 false) fresh_entry idle_handle
              "/p" "" "" None "" [] 5000 "uuid") as (_ & _ & H).
  split; [exact H0|]. split; [by vm_compute|]. exact (proj1 (H H0)).
Defined.

(** ** The asserted identity *)

(** X13.  With [assert_user] set, every transfer of a POST carries, as its
    last header, the asserted identity of the user name passed to
    [send_post]; every transfer of a PUT carries, as its last header, an
    asserted-identity header with an empty identity, whatever user name was
    passed to [send_put]. *)
Theorem asserted_identity_header env c e curl path headers0 response0 body
    extra_req_headers username now_ms uuid_str :
  _assert_user c = true ->
  (forall setup,
     setup ∈ transfer_setups (log (res_state
               (send_post env c e curl path headers0 response0 body username
                          now_ms uuid_str))) ->
     last setup.2 = Some ("X-XCAP-Asserted-Identity: " +:+ username))
  ∧ (forall setup,
       setup ∈ transfer_setups (log (res_state
                 (send_put env c e curl path headers0 response0 body
                           extra_req_headers username now_ms uuid_str))) ->
       last setup.2 = Some "X-XCAP-Asserted-Identity: ").
Proof.
  intros Ha. unfold send_post, send_put. split; intros setup Hin.
  - destruct (send_request_setup_spec env c e curl path body response0
                (Some headers0) username [] now_ms uuid_str) as (Hs & _).
    rewrite Hs in Hin. apply expected_setups_headers in Hin as ->.
    unfold extra_headers. rewrite Ha, !app_assoc. by rewrite last_snoc.
  - destruct (send_request_setup_spec env c e curl path body response0
                (Some headers0) "" extra_req_headers now_ms uuid_str)
      as (Hs & _).
    rewrite Hs in Hin. apply expected_setups_headers in Hin as ->.
    unfold extra_headers. rewrite Ha, !app_assoc. by rewrite last_snoc.
Qed.

Lemma asserted_identity_header_witness :
  let c := mkHttpConnection "backend:8080" "backend" "http" 8080 true
             PROTOCOL false false None 0 in
  let r := send_put (scenario_env [target_A] (fun _ => http_reply 200 [] []))
             c fresh_entry idle_handle "/p" ∅ "" "{}" []
             "sip:alice@example.com" 5000 "uuid" in
  _assert_user c = true
  ∧ (fun setup => setup.2) <$> transfer_setups (log (res_state r))
    = [["Content-Type: application/json"; "X-SAS-HTTP-Branch-ID: uuid";
        "Expect:"; "X-XCAP-Asserted-Identity: "]]
  ∧ (forall setup, setup ∈ transfer_setups (log (res_state r)) ->
       last setup.2 = Some "X-XCAP-Asserted-Identity: ").
Proof.
  cbn zeta. split; [reflexivity|]. split; [by vm_compute|].
  exact (proj2 (asserted_identity_header
                  (scenario_env [target_A] (fun _ => http_reply 200 [] []))
                  (mkHttpConnection "backend:8080" "backend" "http" 8080 true
                     PROTOCOL false false None 0)
                  fresh_entry idle_handle "/p" ∅ "" "{}" []
                  "sip:alice@example.com" 5000 "uuid" eq_refl)).
Defined.

(** ** The communication monitor *)

(** X14.  With a communication monitor attached a call informs it exactly
    once, with the clock reading taken at the start of the call: of a
    success when the last transfer succeeded in the transport and the call
    saw fewer than two 503 responses, whatever HTTP status that transfer
    returned, and of a failure otherwise, which includes the call that made
    no transfer.  Without a monitor nothing is informed. *)
Theorem send_request_comm_monitor env c e curl path body doc0 hdr username
    headers_to_add now_ms uuid_str :
  let r := send_request env c e curl path body doc0 hdr username
                        headers_to_add now_ms uuid_str in
  let att := performed (log (res_state r)) in
  comm_events (log (res_state r))
  = (if _comm_monitor c
     then [(match last att with
            | None => false
            | Some (_, _, rep) =>
                bool_decide (reply_rc rep = CURLE_OK)
                && negb (2 <=? count_of http_503 (outcomes att))
            end, now_ms)]
     else []).
Proof.
  intros r att.
  destruct (send_request_spec env c e curl path body doc0 hdr username
              headers_to_add now_ms uuid_str) as (_ & Hperf & _).
  destruct (send_request_setup_spec env c e curl path body doc0 hdr username
              headers_to_add now_ms uuid_str) as (_ & Hcomm & _).
  fold r in Hperf, Hcomm. subst att. by rewrite Hperf, Hcomm.
Qed.

(** ** The targets tried *)

Lemma expected_transfers_prefix env recycle_conn targets : forall k a b d,
  let att := expected_transfers env recycle_conn k targets a b d in
  (fun x => x.1.1) <$> att = take (length att) targets.
Proof.
  induction targets as [|t rest IH]; intros k a b d; [done|].
  cbn zeta. cbn [expected_transfers].
  destruct (bool_decide _ || _ || _); [done|].
  cbn [fmap list_fmap length take fst]. f_equal. apply IH.
Qed.

Lemma sticky_first_subset env c curl recycle_conn targets t :
  t ∈ sticky_first env c curl recycle_conn targets -> t ∈ targets.
Proof.
  unfold sticky_first. destruct recycle_conn; [done|].
  destruct (CURLINFO_PRIMARY_IP curl) as [ip|]; [|done].
  set (ai := mkAddrInfo _ _ _).
  destruct (Nat.ltb_spec (length (filter (fun t => t <> ai) targets))
                         (length targets)) as [Hlt|Hge]; [|done].
  intros [->|Hin]%elem_of_cons.
  - destruct (decide (ai ∈ targets)) as [Hai|Hai]; [done|].
    exfalso. assert (Hf : filter (fun t => t <> ai) targets = targets).
    { clear Hlt. induction targets as [|x xs IH]; [done|].
      apply not_elem_of_cons in Hai as [Hne Hai].
      rewrite filter_cons, decide_True by done. by rewrite IH. }
    rewrite Hf in Hlt. lia.
  - by apply list_elem_of_filter in Hin as [_ Hin].
Qed.

Lemma sticky_first_length env c curl recycle_conn targets :
  (length (sticky_first env c curl recycle_conn targets) <= length targets)%nat.
Proof.
  unfold sticky_first. destruct recycle_conn; [done|].
  destruct (CURLINFO_PRIMARY_IP curl) as [ip|]; [|done].
  destruct (Nat.ltb_spec (length (filter (fun t => t <>
              mkAddrInfo (parse_ip_target env ip)
                (if _port c =? 0 then 80 else _port c) IPPROTO_TCP) targets))
              (length targets)) as [Hlt|Hge]; [|done].
  cbn [length]. lia.
Qed.

Lemma clone_single_subset targets t : t ∈ clone_single targets -> t ∈ targets.
Proof.
  destruct targets as [|x [|y l]]; cbn [clone_single]; try done.
  intros [->|Hin]%elem_of_cons; [by left|done].
Qed.

Lemma clone_single_length targets :
  (length (clone_single targets) <= Nat.max 2 (length targets))%nat.
Proof. destruct targets as [|x [|y l]]; cbn [clone_single length]; lia. Qed.

(** X15.  The targets a call tries are, in order, the first targets of the
    list it assembled, and every target of that list is one the resolver
    returned: the executor never tries an address the resolver did not
    give.  The number of transfers is at most the length of the resolver's
    list, or two when that list has a single target. *)
Theorem send_request_tries_resolved_targets env c e curl path body doc0 hdr
    username headers_to_add now_ms uuid_str :
  let r := send_request env c e curl path body doc0 hdr username
                        headers_to_add now_ms uuid_str in
  let att := performed (log (res_state r)) in
  let resolved := resolve env (_host c) (_port c) MAX_TARGETS in
  (fun a => a.1.1) <$> att = take (length att) (res_targets r)
  ∧ (forall t, t ∈ res_targets r -> t ∈ resolved)
  ∧ (forall a, a ∈ att -> a.1.1 ∈ resolved)
  ∧ (length att <= Nat.max 2 (length resolved))%nat.
Proof.
  intros r att resolved.
  destruct (send_request_spec env c e curl path body doc0 hdr username
              headers_to_add now_ms uuid_str) as (Htg & Hperf & _).
  fold r in Htg, Hperf. subst att. rewrite Hperf, Htg.
  set (recycle_conn := is_connection_expired now_ms e).
  assert (Hsub : forall t, t ∈ assemble_targets env c curl recycle_conn ->
                           t ∈ resolved).
  { intros t Ht. unfold assemble_targets in Ht.
    by apply clone_single_subset, sticky_first_subset in Ht. }
  split; [apply expected_transfers_prefix|]. split; [done|]. split.
  - intros [[i f] rep] Hin. apply list_elem_of_lookup in Hin as [j Hj].
    apply expected_transfers_lookup in Hj as (Hj & _).
    apply Hsub. by eapply list_elem_of_lookup_2.
  - pose proof (expected_transfers_length env recycle_conn
                  (assemble_targets env c curl recycle_conn) 0 0 0 0) as H1.
    pose proof (clone_single_length
                  (sticky_first env c curl recycle_conn resolved)) as H2.
    pose proof (sticky_first_length env c curl recycle_conn resolved) as H3.
    unfold assemble_targets in H1 |- *. fold resolved in H1 |- *. lia.
Qed.

Lemma blacklisted_of_warm att :
  (forall a, a ∈ att -> a.1.2 = false) -> blacklisted_of att = [].
Proof.
  unfold blacklisted_of. induction att as [|a att IH]; intros Hflag; [done|].
  rewrite filter_cons, decide_False.
  - apply IH. intros x Hx. apply Hflag. by right.
  - rewrite (Hflag a) by (by left). cbn. discriminate.
Qed.

(** X16.  A call made while the connection is not due for recycling sets
    the fresh-connection flag on none of its transfers and blacklists no
    target, however its transfers fail. *)
Theorem send_request_warm_never_blacklists env c e curl path body doc0 hdr
    username headers_to_add now_ms uuid_str :
  is_connection_expired now_ms e = false ->
  let r := send_request env c e curl path body doc0 hdr username
                        headers_to_add now_ms uuid_str in
  blacklist_calls (log (res_state r)) = []
  ∧ forall a, a ∈ performed (log (res_state r)) -> a.1.2 = false.
Proof.
  intros Hwarm r.
  destruct (send_request_spec env c e curl path body doc0 hdr username
              headers_to_add now_ms uuid_str) as (_ & Hperf & Hbl & _).
  fold r in Hperf, Hbl. rewrite Hperf, Hbl, Hwarm.
  assert (Hflag : forall a, a ∈ expected_transfers env false 0
                                  (assemble_targets env c curl false) 0 0 0 ->
                            a.1.2 = false).
  { intros [[i f] rep] Hin. apply list_elem_of_lookup in Hin as [j Hj].
    by apply expected_transfers_lookup in Hj as (_ & -> & _). }
  split; [|done]. by apply blacklisted_of_warm.
Qed.

Lemma send_request_warm_never_blacklists_witness :
  let r := send_request
             (scenario_env [target_A; target_B]
                (fun _ => curl_failure CURLE_COULDNT_CONNECT))
             (scenario_conn 8080 false) (warm_entry "10.0.0.9")
             (warm_handle "10.0.0.9") "/p" "" "" None "" [] 5000 "uuid" in
  is_connection_expired 5000 (warm_entry "10.0.0.9") = false
  ∧ length (performed (log (res_state r))) = 2%nat
  ∧ blacklist_calls (log (res_state r)) = [].
Proof.
  split; [reflexivity|]. split; [by vm_compute|].
  apply (send_request_warm_never_blacklists
           (scenario_env [target_A; target_B]
              (fun _ => curl_failure CURLE_COULDNT_CONNECT))
           (scenario_conn 8080 false) (warm_entry "10.0.0.9")
           (warm_handle "10.0.0.9") "/p" "" "" None "" [] 5000 "uuid").
  reflexivity.
Defined.

(** ** The recycle deadline after a call *)

(** X17.  A call moves the recycle deadline, and draws an interval from the
    sampler, only when its last transfer succeeded and was made on a
    forced-new connection; it then moves it as one [update_deadline] at
    the clock reading of the call does.  As long as the additions stay in
    the range of [unsigned long], after a call that succeeds the connection
    is not due for recycling at that clock reading. *)
Theorem send_request_recycle_deadline env c e curl path body doc0 hdr
    username headers_to_add now_ms uuid_str :
  let r := send_request env c e curl path body doc0 hdr username
                        headers_to_add now_ms uuid_str in
  let succeeded :=
    bool_decide (last (outcomes (performed (log (res_state r)))) = Some ok) in
  let renewed := succeeded && is_connection_expired now_ms e in
  _deadline_ms (entry (res_state r))
  = (if renewed then _deadline_ms (update_deadline now_ms e)
     else _deadline_ms e)
  ∧ _rand_drawn (entry (res_state r))
    = (if renewed then S (_rand_drawn e) else _rand_drawn e)
  ∧ (0 <= _deadline_ms e -> 0 <= now_ms ->
     _deadline_ms e + next_interval_ms e < ULONG_MODULUS ->
     now_ms + next_interval_ms e < ULONG_MODULUS ->
     succeeded = true ->
     is_connection_expired now_ms (entry (res_state r)) = false).
Proof.
  intros r succeeded renewed.
  destruct (send_request_spec env c e curl path body doc0 hdr username
              headers_to_add now_ms uuid_str) as (_ & Hperf & _).
  destruct (send_request_setup_spec env c e curl path body doc0 hdr username
              headers_to_add now_ms uuid_str) as (_ & _ & _ & Hdrawn & Hdl).
  fold r in Hperf, Hdrawn, Hdl. subst renewed succeeded.
  rewrite Hperf, Hdrawn, Hdl. split; [done|]. split; [done|].
  intros Hd Hn Hdi Hni Hs. unfold is_connection_expired at 1.
  rewrite Hdl, Hs. cbn [andb]. unfold is_connection_expired.
  destruct (Z.ltb_spec (_deadline_ms e) now_ms) as [Hexp|Hwarm].
  - destruct (update_deadline_step now_ms e Hd Hn Hdi Hni) as [Heq _].
    pose proof (next_interval_ms_range e) as Hi.
    apply Z.ltb_ge. rewrite Heq.
    destruct (Z.eqb_spec (_deadline_ms e) 0); cbn [orb]; [lia|].
    destruct (Z.ltb_spec (_deadline_ms e + next_interval_ms e) now_ms); lia.
  - by apply Z.ltb_ge.
Qed.

(** A first call that succeeds: the deadline moves one minute past the
    clock reading, and the connection is not expired there. *)
Lemma send_request_recycle_deadline_witness :
  let r := send_request
             (scenario_env [target_A] (fun _ => http_reply 200 [] ["ok"]))
             (scenario_conn 8080 false) fresh_entry idle_handle
             "/p" "" "" None "" [] 5000 "uuid" in
  (0 <= _deadline_ms fresh_entry ∧ 0 <= 5000
   ∧ _deadline_ms fresh_entry + next_interval_ms fresh_entry < ULONG_MODULUS
   ∧ 5000 + next_interval_ms fresh_entry < ULONG_MODULUS)
  ∧ _deadline_ms (entry (res_state r)) = 65000
  ∧ is_connection_expired 5000 (entry (res_state r)) = false.
Proof.
  cbn zeta.
  assert (H : 0 <= _deadline_ms fresh_entry ∧ 0 <= 5000
              ∧ _deadline_ms fresh_entry + next_interval_ms fresh_entry
                < ULONG_MODULUS
              ∧ 5000 + next_interval_ms fresh_entry < ULONG_MODULUS)
    by (repeat split; by vm_compute).
  split; [exact H|]. destruct H as (H1 & H2 & H3 & H4).
  destruct (send_request_recycle_deadline
              (scenario_env [target_A] (fun _ => http_reply 200 [] ["ok"]))
              (scenario_conn 8080 false) fresh_entry idle_handle
              "/p" "" "" None "" [] 5000 "uuid") as (Hdl & _ & Hexp).
  split; [by vm_compute|]. apply Hexp; first [done | by vm_compute].
Defined.

(** ** A call without targets *)

(** X18.  When the resolver returns no target the call leaves the caller's
    response body and response-header map as they were, keeps the recycle
    deadline and the pending DNS directives of the pool entry, resets the
    remote IP to the empty string, emits no abort event and no penalty, and
    informs the communication monitor, if any, of a failure. *)
Theorem send_request_no_targets env c e curl path body doc0 hdr username
    headers_to_add now_ms uuid_str :
  resolve env (_host c) (_port c) MAX_TARGETS = [] ->
  let r := send_request env c e curl path body doc0 hdr username
                        headers_to_add now_ms uuid_str in
  doc (res_state r) = doc0
  ∧ headers (res_state r) = hdr
  ∧ rc (res_state r) = CURLE_COULDNT_RESOLVE_HOST
  ∧ _remote_ip (entry (res_state r)) = ""
  ∧ _deadline_ms (entry (res_state r)) = _deadline_ms e
  ∧ _host_resolve (entry (res_state r)) = _host_resolve e
  ∧ abort_events (log (res_state r)) = []
  ∧ penalty_calls (log (res_state r)) = 0%nat
  ∧ comm_events (log (res_state r))
    = (if _comm_monitor c then [(false, now_ms)] else []).
Proof.
  intros Hres r.
  destruct (send_request_spec env c e curl path body doc0 hdr username
              headers_to_add now_ms uuid_str)
    as (_ & _ & _ & Hab & Hpen & Hrc & _ & Hip & Hdoc & Hhdr & _).
  destruct (send_request_setup_spec env c e curl path body doc0 hdr username
              headers_to_add now_ms uuid_str)
    as (_ & Hcomm & Hnote & _ & Hdl).
  fold r in Hab, Hpen, Hrc, Hip, Hdoc, Hhdr, Hcomm, Hnote, Hdl.
  unfold assemble_targets in *. rewrite Hres, sticky_first_nil in *.
  cbn [clone_single expected_transfers] in *.
  rewrite Hab, Hpen, Hrc, Hip, Hdoc, Hhdr, Hcomm, Hnote, Hdl.
  repeat split; try done. by destruct hdr.
Qed.

Lemma send_request_no_targets_witness :
  let env := scenario_env [] (fun _ => http_reply 200 [] []) in
  let r := send_request env (scenario_conn 8080 true) (warm_entry "10.0.0.1")
             (warm_handle "10.0.0.1") "/p" "" "stale" None "" [] 5000 "uuid" in
  resolve env "backend" 8080 MAX_TARGETS = []
  ∧ doc (res_state r) = "stale"
  ∧ _remote_ip (entry (res_state r)) = ""
  ∧ comm_events (log (res_state r)) = [(false, 5000)].
Proof.
  cbn zeta. split; [reflexivity|].
  destruct (send_request_no_targets
              (scenario_env [] (fun _ => http_reply 200 [] []))
              (scenario_conn 8080 true) (warm_entry "10.0.0.1")
              (warm_handle "10.0.0.1") "/p" "" "stale" None "" [] 5000 "uuid"
              eq_refl) as (H1 & _ & _ & H4 & _ & _ & _ & _ & H9).
  split; [exact H1|]. split; [exact H4|]. exact H9.
Defined.

(** ** What a penalty goes with *)

Lemma count_of_nonneg x l : 0 <= count_of x l.
Proof. unfold count_of. lia. Qed.

Lemma bump_range x o : 0 <= bump x o <= 1.
Proof. unfold bump. destruct (decide _); lia. Qed.

Lemma bump_one x o : bump x o = 1 -> o = x.
Proof. unfold bump. by destruct (decide _). Qed.

Lemma expected_transfers_spent_last env recycle_conn targets :
  forall k a b d,
  0 <= a -> 0 <= b -> 0 <= d -> a + d < 2 -> b < 1 ->
  let outs := outcomes (expected_transfers env recycle_conn k targets a b d) in
  (2 <= a + count_of http_503 outs -> last outs = Some http_503)
  ∧ (1 <= b + count_of http_504 outs -> last outs = Some http_504).
Proof.
  induction targets as [|t rest IH]; intros k a b d Ha Hb Hd Had Hb1;
    cbn zeta.
  - cbn [expected_transfers]. unfold outcomes, count_of. cbn. lia.
  - cbn [expected_transfers]. unfold outcomes. cbn [fmap list_fmap snd].
    set (o := classify (curl_easy_perform env k t recycle_conn)).
    pose proof (bump_range http_503 o) as B3.
    pose proof (bump_range http_504 o) as B4.
    pose proof (bump_range timeout_or_io o) as Bt.
    destruct (bool_decide (o = ok) || is_fatal o
              || ((2 <=? a + bump http_503 o + (d + bump timeout_or_io o))
                  || (1 <=? b + bump http_504 o))) eqn:Hstop.
    + cbn [fmap list_fmap last]. rewrite !count_of_cons.
      unfold count_of. rewrite !filter_nil. cbn [length]. split; intros H.
      * f_equal. apply bump_one. lia.
      * f_equal. apply bump_one. lia.
    + apply orb_false_iff in Hstop as [_ Hsp].
      apply orb_false_iff in Hsp as [H2 H1].
      apply Z.leb_gt in H2, H1.
      specialize (IH (S k) (a + bump http_503 o) (b + bump http_504 o)
                     (d + bump timeout_or_io o)
                     ltac:(lia) ltac:(lia) ltac:(lia) ltac:(lia) ltac:(lia)).
      cbn zeta in IH. unfold outcomes in IH.
      set (outs' := (fun a0 : AddrInfo * bool * Reply => classify a0.2) <$> _)
        in *.
      destruct IH as [I3 I4]. rewrite !count_of_cons, last_cons.
      pose proof (count_of_nonneg http_503 outs').
      pose proof (count_of_nonneg http_504 outs').
      split; intros Hc.
      * rewrite I3 by lia. done.
      * rewrite I4 by lia. done.
Qed.

Lemma classify_http_503 rep :
  classify rep = http_503 ->
  reply_rc rep = CURLE_OK ∧ reply_response_code rep = 503.
Proof.
  unfold classify. destruct (reply_rc rep); try done.
  destruct (_ <? 400); [done|].
  destruct (Z.eqb_spec (reply_response_code rep) 503); [done|].
  by destruct (_ =? 504).
Qed.

Lemma classify_http_504 rep :
  classify rep = http_504 ->
  reply_rc rep = CURLE_OK ∧ reply_response_code rep = 504.
Proof.
  unfold classify. destruct (reply_rc rep); try done.
  destruct (_ <? 400); [done|].
  destruct (_ =? 503); [done|].
  by destruct (Z.eqb_spec (reply_response_code rep) 504).
Qed.

(** X19.  Whenever a call penalises the load monitor, its last transfer
    returned the 503 or the 504 that spent the budget: the call returns
    that status, with the transport reporting success, and it has emitted
    one abort event, tagged [Temporary].  No call penalises the load
    monitor more than once. *)
Theorem send_request_penalty_outcome env c e curl path body doc0 hdr username
    headers_to_add now_ms uuid_str :
  let r := send_request env c e curl path body doc0 hdr username
                        headers_to_add now_ms uuid_str in
  (penalty_calls (log (res_state r)) <= 1)%nat
  ∧ (penalty_calls (log (res_state r)) = 1%nat ->
     (res_code r = 503 ∨ res_code r = 504)
     ∧ rc (res_state r) = CURLE_OK
     ∧ abort_events (log (res_state r)) = [Temporary]).
Proof.
  intros r.
  destruct (send_request_spec env c e curl path body doc0 hdr username
              headers_to_add now_ms uuid_str)
    as (_ & _ & _ & Hab & Hpen & Hrc & Hcode & _).
  fold r in Hab, Hpen, Hrc, Hcode. rewrite Hpen, Hab, Hrc, Hcode.
  set (att := expected_transfers _ _ _ _ _ _ _).
  split; [set (b := _ && _load_monitor c); destruct b; lia|].
  destruct (expected_transfers_spent_last env (is_connection_expired now_ms e)
              (assemble_targets env c curl (is_connection_expired now_ms e))
              0 0 0 0 ltac:(lia) ltac:(lia) ltac:(lia) ltac:(lia) ltac:(lia))
    as [H3 H4].
  cbn zeta in H3, H4. fold att in H3, H4. rewrite !Z.add_0_l in H3, H4.
  destruct ((2 <=? count_of http_503 (outcomes att))
            || (1 <=? count_of http_504 (outcomes att))) eqn:Hcond;
    [|cbn [andb]; discriminate].
  intros _. unfold abort_of, budget_spent.
  pose proof (count_of_nonneg timeout_or_io (outcomes att)) as Hto.
  unfold outcomes in *. rewrite fmap_last in *.
  apply orb_true_iff in Hcond as [Hc|Hc]; apply Z.leb_le in Hc.
  - specialize (H3 Hc). destruct (last att) as [[[i f] rep]|]; [|done].
    injection H3 as H3. cbn [fmap option_fmap option_map snd].
    rewrite H3. destruct (classify_http_503 rep H3) as [-> ->].
    cbn [curl_code_to_http_code CURLINFO_RESPONSE_CODE is_fatal].
    rewrite bool_decide_eq_false_2 by done.
    rewrite (proj2 (Z.leb_le 2 _)) by lia. cbn [orb]. auto.
  - specialize (H4 Hc). destruct (last att) as [[[i f] rep]|]; [|done].
    injection H4 as H4. cbn [fmap option_fmap option_map snd].
    rewrite H4. destruct (classify_http_504 rep H4) as [-> ->].
    cbn [curl_code_to_http_code CURLINFO_RESPONSE_CODE is_fatal].
    rewrite bool_decide_eq_false_2 by done.
    rewrite (proj2 (Z.leb_le 1 _) Hc), orb_true_r. auto.
Qed.

(** A single 504 out of three targets. *)
Lemma send_request_penalty_outcome_witness :
  let r := send_request
             (scenario_env [target_A; target_B; target_C]
                (fun _ => http_reply 504 [] []))
             (scenario_conn 8080 true) fresh_entry idle_handle
             "/p" "" "" None "" [] 5000 "uuid" in
  penalty_calls (log (res_state r)) = 1%nat
  ∧ (res_code r = 503 ∨ res_code r = 504)
  ∧ rc (res_state r) = CURLE_OK
  ∧ abort_events (log (res_state r)) = [Temporary].
Proof.
  cbn zeta.
  assert (H : penalty_calls (log (res_state
                (send_request
                   (scenario_env [target_A; target_B; target_C]
                      (fun _ => http_reply 504 [] []))
                   (scenario_conn 8080 true) fresh_entry idle_handle
                   "/p" "" "" None "" [] 5000 "uuid"))) = 1%nat)
    by (by vm_compute).
  split; [exact H|].
  exact (proj2 (send_request_penalty_outcome
                  (scenario_env [target_A; target_B; target_C]
                     (fun _ => http_reply 504 [] []))
                  (scenario_conn 8080 true) fresh_entry idle_handle
                  "/p" "" "" None "" [] 5000 "uuid") H).
Defined.
